(** * pyBodyTrack: the [BodyTracking] session object and its aggregators

    A shallow embedding of [pybodytrack/BodyTracking.py]: the constructor
    ([__init__]), [set_times], [getData], [filter_interval], the four
    movement statistics ([movement_per_second], [movement_per_frame],
    [normalized_movement_index], [movement_per_landmark]),
    [stats_summary], [save_csv], the three capture loops ([start],
    [startbackup], [startbackup2]) with [stop], and the worker thread
    ([_processing_thread_func]).

    Python values are modelled as follows.
    - A method that may raise returns a [result]: [Ok v] or [Raise e].
    - Numbers are duck-typed in the source, so the embedding is written once
      over a small interface [PyNum] and instantiated twice: at [float]
      (IEEE binary64, what [time.time()], pandas columns and Python [float]
      are) and at [Qc] (exact rationals in lowest terms, what
      [fractions.Fraction] is, and the arithmetic of the real numbers).
      Both instances satisfy the order laws of [LawfulNum]; only the exact
      one has the laws of a field.  A Python [int] that meets a number is
      converted to its kind first, which raises [OverflowError] when the
      [int] is too large for a [float].  [self.fps] and
      [self.frame_interval] are an [int] or a [float] whatever the table
      holds.
    - The accumulated table ([self.tracker.get_dataframe()]) is a list of
      rows in capture order; [cv2.VideoCapture] is reduced to its source and
      to the positions written by [cap.set(CAP_PROP_POS_MSEC, _)]; [print]
      appends to a console log carried by the object.
    - A capture loop runs against a list of [Tick]s, one per iteration,
      that record what the outside world answered; the worker and the
      capture loop interleave as a list of [Action]s on the shared slots.

    The statements come in groups: what holds for every kind of number
    (the empty table, the degenerate boundaries, construction and
    [set_times]), what holds of the interval filter under the order laws,
    what exact arithmetic adds to it and what rounding in binary64 keeps of
    it, and then the summary, the loops and the worker. *)

From Stdlib Require Import String.
From Stdlib Require Import ZArith List Bool Lia Sorted.
From Stdlib Require Import QArith Qcanon Qpower Floats.
Import ListNotations.

#[local] Set Warnings "-inexact-float".
#[local] Open Scope Z_scope.

(** ** Exceptions and results *)

Inductive exn : Type :=
| IndexError
| ValueError
| AttributeError
| ZeroDivisionError
| OverflowError
| ExternalError (tag : Z).

Inductive result (T : Type) : Type :=
| Ok (v : T)
| Raise (e : exn).

Arguments Ok {T} v.
Arguments Raise {T} e.

Definition bind {T U : Type} (r : result T) (k : T -> result U) : result U :=
  match r with
  | Ok v => k v
  | Raise e => Raise e
  end.

Notation "x <- r ;; k" := (bind r (fun x => k))
  (at level 61, r at next level, right associativity).

(** [returns r]: the call produced a value, it did not raise. *)
Definition returns {T : Type} (r : result T) : Prop := exists v, r = Ok v.

(** Python indexing [l[i]] of a sequence: a negative index counts from the
    end, an index out of range raises [IndexError]. *)
Definition getitem {T : Type} (l : list T) (i : Z) : result T :=
  let n := Z.of_nat (length l) in
  let j := if i <? 0 then i + n else i in
  if (0 <=? j) && (j <? n) then
    match nth_error l (Z.to_nat j) with
    | Some v => Ok v
    | None => Raise IndexError
    end
  else Raise IndexError.

(** ** Numbers *)

(** The operations the source applies to numbers. [cmp] is the three-way
    comparison; it answers [None] on unordered operands (a NaN).
    [overflows k] tells whether the Python [int] [k] is too large to be
    converted to this kind of number, in which case an operation that
    mixes the two raises [OverflowError]; [of_int k] is the converted
    number when it is not. *)
Class PyNum (A : Type) : Type := {
  of_int : Z -> A;
  overflows : Z -> bool;
  add : A -> A -> A;
  sub : A -> A -> A;
  mul : A -> A -> A;
  div : A -> A -> A;
  cmp : A -> A -> option comparison
}.

Section Comparisons.
Context {A : Type} `{PyNum A}.

(** [a <= b] *)
Definition le (a b : A) : bool :=
  match cmp a b with
  | Some Lt | Some Eq => true
  | _ => false
  end.

(** [a >= b] *)
Definition ge (a b : A) : bool :=
  match cmp a b with
  | Some Gt | Some Eq => true
  | _ => false
  end.

(** [a > b] *)
Definition gt (a b : A) : bool :=
  match cmp a b with
  | Some Gt => true
  | _ => false
  end.

(** [a == b] *)
Definition eq_num (a b : A) : bool :=
  match cmp a b with
  | Some Eq => true
  | _ => false
  end.

(** [a / k] with [k] a Python [int]: [OverflowError] when [k] does not
    convert, [ZeroDivisionError] when [k] is [0]. *)
Definition truediv_int (a : A) (k : Z) : result A :=
  if overflows k then Raise OverflowError
  else if k =? 0 then Raise ZeroDivisionError
  else Ok (div a (of_int k)).

(** [a * k] with [k] a Python [int]: [OverflowError] when [k] does not
    convert. *)
Definition mul_int (a : A) (k : Z) : result A :=
  if overflows k then Raise OverflowError else Ok (mul a (of_int k)).

(** [a / k] with [k] computed from a [len]: a length is at most
    [sys.maxsize], which every kind of number holds, so that the division
    raises [ZeroDivisionError] when [k] is [0] and nothing else. *)
Definition truediv_len (a : A) (k : Z) : result A :=
  if k =? 0 then Raise ZeroDivisionError else Ok (div a (of_int k)).

(** A sequence of numbers in non-decreasing order. *)
Fixpoint nondecreasing (ts : list A) : bool :=
  match ts with
  | [] => true
  | a :: rest =>
      match rest with
      | [] => true
      | b :: _ => le a b && nondecreasing rest
      end
  end.
End Comparisons.

(** The order laws the interval filter relies on.  [le] is transitive, and
    reflexive on every operand that compares at all (a NaN does not);
    [>=] is [<=] read backwards; adding the integer 0 does not change how a
    number compares. *)
Class LawfulNum (A : Type) {num : PyNum A} : Prop := {
  le_trans : forall x y z : A, le x y = true -> le y z = true -> le x z = true;
  le_refl_l : forall x y : A, le x y = true -> le x x = true;
  ge_le : forall x y : A, ge x y = le y x;
  cmp_add_zero : forall x y : A, cmp y (add x (of_int 0)) = cmp y x
}.

(** *** binary64 *)

(** Conversion of an [int] to the nearest binary64 number. *)
Definition float_of_int (z : Z) : float :=
  SF2Prim (binary_normalize prec emax z 0 false).

(** An [int] is too large for a [float] when rounding it to the nearest
    binary64 number leaves the finite range, that is from
    [2^1024 - 2^970] on ("int too large to convert to float"). *)
Definition float_overflows (z : Z) : bool :=
  match binary_normalize prec emax z 0 false with
  | S754_infinity _ => true
  | _ => false
  end.

Definition float_cmp (a b : float) : option comparison :=
  match PrimFloat.compare a b with
  | FEq => Some Eq
  | FLt => Some Lt
  | FGt => Some Gt
  | FNotComparable => None
  end.

(** [<=] on the specification's floats, to which the axioms of the
    primitive ones refer. *)
Definition sf_le (x y : spec_float) : bool :=
  match SFcompare x y with
  | Some Lt | Some Eq => true
  | _ => false
  end.

#[export] Instance float_num : PyNum float := {|
  of_int := float_of_int;
  overflows := float_overflows;
  add := PrimFloat.add;
  sub := PrimFloat.sub;
  mul := PrimFloat.mul;
  div := PrimFloat.div;
  cmp := float_cmp
|}.

(** *** The value of a binary64 number *)

(** The rational number that a finite binary64 number is: its mantissa
    times a power of two.  (Zeros, infinities and NaN are given 0; the
    statements below use it on finite numbers.) *)
Definition SF2Q (x : spec_float) : Q :=
  match x with
  | S754_finite s m e => inject_Z (cond_Zopp s (Z.pos m)) * (2 # 1) ^ e
  | _ => 0
  end.

Definition float_to_Q (x : float) : Q := SF2Q (Prim2SF x).

(** [end_sec >= last - first] as numbers: the difference is the exact
    one, not the one rounded to binary64; an infinite [end_sec] is above
    every difference. *)
Definition exact_ge (end_sec last first : float) : bool :=
  if is_finite end_sec
  then Qle_bool (float_to_Q last - float_to_Q first) (float_to_Q end_sec)
  else PrimFloat.eqb end_sec infinity.

(** The Python [int] [k] is a binary64 number: converting it to a [float]
    does not round it. *)
Definition converts_exactly (k : Z) : bool :=
  is_finite (float_of_int k)
  && Qeq_bool (float_to_Q (float_of_int k)) (inject_Z k).

(** The same value as an integer: every finite binary64 number is a
    multiple of [2^-1074], and [SFZ x] is [x * 2^1074]. *)
Definition SFZ (x : spec_float) : Z :=
  match x with
  | S754_finite s m e => cond_Zopp s (Z.pos m * 2 ^ (e + 1074))
  | _ => 0
  end.

Definition sf_finite (x : spec_float) : bool :=
  match x with
  | S754_zero _ | S754_finite _ _ _ => true
  | _ => false
  end.

(** The number [v = m * 2^e], with [e >= -1074], is rounded at the unit
    [u = 2^(e + n)], where [n] is the number of digits that [m] has beyond
    the 53 of the format.  [round_down] is [v] truncated to a multiple of
    [u], and [round_up] the next multiple, or [v] itself when [v] is one;
    both scaled by [2^1074] as [SFZ] is. *)
Definition extra_digits (m : positive) : Z :=
  Z.max 0 (Z.pos (digits2_pos m) - 53).

Definition round_down (m : positive) (e : Z) : Z :=
  Z.pos m / 2 ^ extra_digits m * 2 ^ (e + extra_digits m + 1074).

Definition round_up (m : positive) (e : Z) : Z :=
  if Z.pos m mod 2 ^ extra_digits m =? 0 then round_down m e
  else round_down m e + 2 ^ (e + extra_digits m + 1074).

(** The last step of the library's [binary_round_aux]: the rounded
    mantissa [m2] is shifted once more if it has grown to 54 digits, and
    the overflow test is made. *)
Definition last_step (s : bool) (m2 : Z) (t : Z) : spec_float :=
  let '(mrs, e) := shr_fexp prec emax m2 t loc_Exact in
  match shr_m mrs with
  | Z0 => S754_zero s
  | Z.pos m => if e <=? emax - prec then S754_finite s m e else S754_infinity s
  | Z.neg _ => S754_nan
  end.

(** *** Exact rationals *)

#[export] Instance Qc_num : PyNum Qc := {|
  of_int := fun z => Q2Qc (inject_Z z);
  overflows := fun _ => false;
  add := Qcplus;
  sub := Qcminus;
  mul := Qcmult;
  div := Qcdiv;
  cmp := fun a b => Some (Qccompare a b)
|}.

(** A number as Python holds it: an [int] or a [float]. *)
Inductive PyNumber (A : Type) : Type :=
| PyInt (k : Z)
| PyFloat (x : A).

Arguments PyInt {A} k.
Arguments PyFloat {A} x.

(** [d == 0] for a number [d]. *)
Definition equals_zero (d : PyNumber float) : bool :=
  match d with
  | PyInt k => k =? 0
  | PyFloat y => eq_num y (of_int 0)
  end.

(** The rate the constructor keeps for a file that reports [f]. *)
Definition file_fps (f : float) : PyNumber float :=
  if eq_num f (of_int 0) then PyInt 30 else PyFloat f.

(** [x / d] for a [float] [x]: the quotient in binary64, and
    [ZeroDivisionError] when [d] equals zero. *)
Definition float_truediv (x : float) (d : PyNumber float) : result float :=
  match d with
  | PyInt k => truediv_int x k
  | PyFloat y =>
      if eq_num y (of_int 0) then Raise ZeroDivisionError
      else Ok (PrimFloat.div x y)
  end.

(** ** Data model *)

(** Modelled from the spec: the enumerations [VideoMode] and
    [PoseProcessor] ([pybodytrack/enums]) are not among the sources.  The
    constructor compares its arguments with two members of each, so a value
    is one of those two members or anything else ([OtherMode],
    [OtherProcessor]); its docstring gives "0 for camera, 1 for video
    file". *)
Inductive VideoMode : Type :=
| CAMERA
| VIDEO
| OtherMode (tag : Z).

Inductive PoseProcessor : Type :=
| MEDIAPIPE
| YOLO
| OtherProcessor (tag : Z).

(** Modelled from the spec: the two pose backends
    ([pybodytrack/pose_estimators]) are not among the sources; only which
    of them was built matters here. *)
Inductive Processor : Type :=
| MediaPipeProcessor
| YoloProcessor (model_path : string).

Inductive CapSource : Type :=
| CameraIndex (i : Z)
| VideoFile (path : string).

Section Model.
Context {A : Type} `{PyNum A}.

(** One row of the table: the timestamp column, then the coordinates. *)
Record LandmarkRow : Type := {
  timestamp : A;
  coords : list A
}.

Definition DataFrame : Type := list LandmarkRow.

(** Modelled from the spec: [CameraPoseTracker]
    ([pybodytrack/pose_estimators/camera_pose_tracker.py]) is not among the
    sources.  The specification makes it the owner of the append-only table,
    created empty, of which [get_dataframe] returns the snapshot. *)
Record CameraPoseTracker : Type := {
  processor : Processor;
  selected_landmarks : option (list string);
  data : DataFrame
}.

Definition get_dataframe (t : CameraPoseTracker) : DataFrame := data t.

(** [cv2.VideoCapture]: [pos_msec_writes] lists the values written by
    [cap.set(cv2.CAP_PROP_POS_MSEC, v)], the latest first. *)
Record VideoCapture : Type := {
  source : CapSource;
  pos_msec_writes : list A
}.

Record BodyTracking : Type := {
  tracker : CameraPoseTracker;
  mode : VideoMode;
  path_video : option string;
  cap : VideoCapture;
  fps : PyNumber float;
  frame_interval : float;
  text : string;
  stop_processing : bool;
  starttime : option A;
  endtime : option A;
  console : list string
}.

(** What the constructor obtains from outside this file: whether each
    external constructor raises, and the frame rate a file reports (a
    [float], as [cv2.VideoCapture.get] returns). *)
Record Env : Type := {
  new_MediaPipeProcessor : result Processor;
  new_YoloProcessor : string -> result Processor;
  new_CameraPoseTracker :
    Processor -> option (list string) -> result CameraPoseTracker;
  cap_get_CAP_PROP_FPS : string -> float
}.

(** [BodyTracking.__init__].  [self.fps] is the [int] 30 or the [float]
    that the file reports; [self.frame_interval] is [1.0 / self.fps], a
    [float] whatever the numbers of the table are. *)
Definition BodyTracking_init (env : Env) (processor_arg : PoseProcessor)
    (mode_arg : VideoMode) (path_video_arg custom_model_path : string)
    (selected : option (list string)) : result BodyTracking :=
  self_processor <-
    match processor_arg with
    | MEDIAPIPE => p <- new_MediaPipeProcessor env ;; Ok (Some p)
    | YOLO => p <- new_YoloProcessor env custom_model_path ;; Ok (Some p)
    | OtherProcessor _ => Ok None
    end ;;
  p <- match self_processor with
       | Some p => Ok p
       | None => Raise AttributeError
       end ;;
  trk <- new_CameraPoseTracker env p selected ;;
  let self_path :=
    match mode_arg with
    | VIDEO => Some path_video_arg
    | _ => None
    end in
  cap_fps <-
    match mode_arg with
    | CAMERA =>
        Ok ({| source := CameraIndex 0; pos_msec_writes := [] |}, PyInt 30)
    | VIDEO =>
        let c := {| source := VideoFile path_video_arg;
                    pos_msec_writes := [] |} in
        let f := cap_get_CAP_PROP_FPS env path_video_arg in
        Ok (c, file_fps f)
    | OtherMode _ => Raise ValueError
    end ;;
  let '(c, f) := cap_fps in
  interval <- float_truediv 1%float f ;;
  Ok {| tracker := trk;
        mode := mode_arg;
        path_video := self_path;
        cap := c;
        fps := f;
        frame_interval := interval;
        text := match p with
                | YoloProcessor _ => "YOLO"
                | MediaPipeProcessor => "MediaPipe"
                end;
        stop_processing := false;
        starttime := None;
        endtime := None;
        console := [] |}.

(** Field updates of [self]. *)
Definition with_times (self : BodyTracking) (s e : option A) : BodyTracking :=
  {| tracker := tracker self; mode := mode self;
     path_video := path_video self; cap := cap self; fps := fps self;
     frame_interval := frame_interval self; text := text self;
     stop_processing := stop_processing self;
     starttime := s; endtime := e; console := console self |}.

Definition cap_set_pos_msec (self : BodyTracking) (v : A) : BodyTracking :=
  {| tracker := tracker self; mode := mode self;
     path_video := path_video self;
     cap := {| source := source (cap self);
               pos_msec_writes := v :: pos_msec_writes (cap self) |};
     fps := fps self;
     frame_interval := frame_interval self; text := text self;
     stop_processing := stop_processing self;
     starttime := starttime self; endtime := endtime self;
     console := console self |}.

Definition print (self : BodyTracking) (line : string) : BodyTracking :=
  {| tracker := tracker self; mode := mode self;
     path_video := path_video self; cap := cap self; fps := fps self;
     frame_interval := frame_interval self; text := text self;
     stop_processing := stop_processing self;
     starttime := starttime self; endtime := endtime self;
     console := console self ++ [line] |}.

(** [set_times] *)
Definition set_times (self : BodyTracking) (startsec endsec : A)
    : result BodyTracking :=
  match mode self with
  | VIDEO =>
      if gt endsec startsec then
        let self1 := with_times self (Some startsec) (endtime self) in
        let self2 := with_times self1 (starttime self1) (Some endsec) in
        match starttime self2 with
        | Some st => Ok (cap_set_pos_msec self2 (mul st (of_int 1000)))
        | None => Ok self2
        end
      else Ok (print self "End time must be greater than start time")
  | _ => Ok self
  end.

(** [getData] *)
Definition getData (self : BodyTracking) : DataFrame :=
  get_dataframe (tracker self).

(** [filter_interval] *)
Definition filter_interval (self : BodyTracking) (start_sec end_sec : A)
    : result DataFrame :=
  let df := getData self in
  row0 <- getitem df 0 ;;
  let t0 := timestamp row0 in
  let start_ts := add t0 start_sec in
  let end_ts := add t0 end_sec in
  Ok (filter (fun r => ge (timestamp r) start_ts && le (timestamp r) end_ts)
             df).

(** [movement_per_second] *)
Definition movement_per_second (self : BodyTracking) (total_movement : A)
    : result A :=
  let timestamps := map timestamp (getData self) in
  t_last <- getitem timestamps (-1) ;;
  t_first <- getitem timestamps 0 ;;
  let duration := sub t_last t_first in
  if le duration (of_int 0) then Ok (of_int 0)
  else Ok (div total_movement duration).

(** [movement_per_frame] *)
Definition movement_per_frame (self : BodyTracking) (total_movement : A)
    : result A :=
  let n_frames := Z.of_nat (length (getData self)) in
  if n_frames <=? 1 then Ok (of_int 0)
  else truediv_len total_movement (n_frames - 1).

(** [normalized_movement_index] *)
Definition normalized_movement_index (self : BodyTracking)
    (total_movement : A) (num_landmarks : Z) : result A :=
  let timestamps := map timestamp (getData self) in
  t_last <- getitem timestamps (-1) ;;
  t_first <- getitem timestamps 0 ;;
  let duration := sub t_last t_first in
  if le duration (of_int 0) || (num_landmarks <=? 0) then Ok (of_int 0)
  else
    denominator <- mul_int duration num_landmarks ;;
    Ok (div total_movement denominator).

(** [movement_per_landmark] *)
Definition movement_per_landmark (self : BodyTracking) (total_movement : A)
    (num_landmarks : Z) : result A :=
  if num_landmarks <=? 0 then Ok (of_int 0)
  else truediv_int total_movement num_landmarks.

(** The duration of a table, [last_timestamp - first_timestamp]; a table
    with no row has none. *)
Definition series_duration (df : DataFrame) : option A :=
  match map timestamp df with
  | [] => None
  | t0 :: rest => Some (sub (last rest t0) t0)
  end.

(** A session object holding the table [df], as a fresh object that the
    worker has filled. *)
Definition session_of (m : VideoMode) (df : DataFrame) : BodyTracking :=
  {| tracker := {| processor := MediaPipeProcessor;
                   selected_landmarks := None;
                   data := df |};
     mode := m;
     path_video := match m with VIDEO => Some "clip.mp4"%string | _ => None end;
     cap := {| source := match m with
                         | VIDEO => VideoFile "clip.mp4"
                         | _ => CameraIndex 0
                         end;
               pos_msec_writes := [] |};
     fps := PyInt 30;
     frame_interval := (1 / 30)%float;
     text := "MediaPipe";
     stop_processing := false;
     starttime := None;
     endtime := None;
     console := [] |}.

(** A table with one coordinate column, from (timestamp, x) pairs. *)
Definition table (rows : list (A * A)) : DataFrame :=
  map (fun tx => {| timestamp := fst tx; coords := [snd tx] |}) rows.
End Model.

Arguments LandmarkRow A : clear implicits.
Arguments DataFrame A : clear implicits.
Arguments CameraPoseTracker A : clear implicits.
Arguments VideoCapture A : clear implicits.
Arguments BodyTracking A : clear implicits.
Arguments Env A : clear implicits.

(** ** Concrete sessions *)

(** The table of the specification's example: rows (t, x) = (0, 0), (1, 1),
    (2, 4), once with binary64 cells and once with exact ones. *)
Definition example_session_float : BodyTracking float :=
  session_of CAMERA (table [(0, 0); (1, 1); (2, 4)]%float).

Definition example_session_exact : BodyTracking Qc :=
  session_of CAMERA
    (table [(of_int 0, of_int 0); (of_int 1, of_int 1); (of_int 2, of_int 4)]).

(** A session whose worker has appended no row yet. *)
Definition empty_session : BodyTracking float := session_of CAMERA [].

(** A session holding a single row, at timestamp 5. *)
Definition single_row_session : BodyTracking float :=
  session_of CAMERA (table [(5, 0)]%float).

(** Fifty rows, at timestamps 0, 1, ..., 49. *)
Definition fifty_frames_session : BodyTracking float :=
  session_of CAMERA
    (map (fun i => {| timestamp := float_of_int (Z.of_nat i); coords := [] |})
         (seq 0 50)).

(** Two rows, at timestamps 0.2 and 0.9. *)
Definition short_clip_session : BodyTracking float :=
  session_of VIDEO (table [(0.2, 0); (0.9, 1)]%float).

(** Two rows, at timestamps 1 and 2^53 + 2, the binary64 number next
    above 2^53. *)
Definition large_timestamps_session : BodyTracking float :=
  session_of CAMERA (table [(1, 0); (9007199254740994, 1)]%float).

(** Two rows whose timestamps are not numbers: minus infinity and plus
    infinity. *)
Definition infinite_timestamps_session : BodyTracking float :=
  session_of CAMERA (table [(neg_infinity, 0); (infinity, 1)]%float).

(** Two rows one second apart, at Unix-epoch timestamps. *)
Definition epoch_session : BodyTracking float :=
  session_of CAMERA (table [(1700000000, 0); (1700000001, 1)]%float).

(** An environment in which every external constructor succeeds and a
    video file reports 25 frames per second. *)
Definition working_env : Env float :=
  {| new_MediaPipeProcessor := Ok MediaPipeProcessor;
     new_YoloProcessor := fun model => Ok (YoloProcessor model);
     new_CameraPoseTracker := fun p sel =>
       Ok {| processor := p; selected_landmarks := sel; data := [] |};
     cap_get_CAP_PROP_FPS := fun _ => 25%float |}.

(** The same environment, except that the file reports no frame rate. *)
Definition silent_file_env : Env float :=
  {| new_MediaPipeProcessor := Ok MediaPipeProcessor;
     new_YoloProcessor := fun model => Ok (YoloProcessor model);
     new_CameraPoseTracker := fun p sel =>
       Ok {| processor := p; selected_landmarks := sel; data := [] |};
     cap_get_CAP_PROP_FPS := fun _ => 0%float |}.

(** A file session with a window already configured ([2, 8] seconds). *)
Definition windowed_session : BodyTracking float :=
  cap_set_pos_msec
    (with_times (session_of VIDEO []) (Some 2%float) (Some 8%float))
    2000%float.

(** ** Further operations on a session *)

Section Sessions.
Context {A : Type} `{PyNum A}.

(** The same object once the worker has brought the table to [df]. *)
Definition with_data (self : BodyTracking A) (df : DataFrame A)
    : BodyTracking A :=
  {| tracker := {| processor := processor (tracker self);
                   selected_landmarks := selected_landmarks (tracker self);
                   data := df |};
     mode := mode self;
     path_video := path_video self; cap := cap self; fps := fps self;
     frame_interval := frame_interval self; text := text self;
     stop_processing := stop_processing self;
     starttime := starttime self; endtime := endtime self;
     console := console self |}.

(** A table with every timestamp moved by [c]. *)
Definition shift_table (c : A) (df : DataFrame A) : DataFrame A :=
  map (fun r => {| timestamp := add (timestamp r) c; coords := coords r |}) df.

(** Successive calls [set_times(s, e)], in order. *)
Fixpoint set_times_all (self : BodyTracking A) (calls : list (A * A))
    : result (BodyTracking A) :=
  match calls with
  | [] => Ok self
  | (s, e) :: rest => self' <- set_times self s e ;; set_times_all self' rest
  end.

(** The calls of a list that [set_times] accepts, and those it rejects. *)
Definition accepted (calls : list (A * A)) : list (A * A) :=
  filter (fun c => gt (snd c) (fst c)) calls.

Definition rejected (calls : list (A * A)) : list (A * A) :=
  filter (fun c => negb (gt (snd c) (fst c))) calls.

(** The test [filter_interval] applies to a row, for a first timestamp
    [t0] and the offsets [a], [b]. *)
Definition in_window (t0 a b : A) (r : LandmarkRow A) : bool :=
  ge (timestamp r) (add t0 a) && le (timestamp r) (add t0 b).

(** The line [set_times] prints when it rejects a window. *)
Definition warning : string := "End time must be greater than start time".

(** [x <= y], as a proposition. *)
Definition le_prop (x y : A) : Prop := le x y = true.
End Sessions.

(** ** The summary, the export and the capture loops *)

(** What a call can raise besides the exceptions of the methods above:
    [RuntimeError] (from [threading.Thread]), [TypeError] (from [len] and
    from slicing), or an exception of a method it calls. *)
Inductive run_exn : Type :=
| RuntimeError
| TypeError
| MethodError (e : exn).

(** An image, by identity. *)
Definition Frame : Type := Z.

(** [threading.Thread]: not started yet, started, or joined after its
    function returned. *)
Inductive ThreadState : Type :=
| ThreadInitial
| ThreadStarted
| ThreadStopped.

(** Python slices [l[:k]] and [l[k:]] for an integer [k]: a negative [k]
    counts from the end, and a bound out of range is clipped. *)
Definition slice_to {T : Type} (l : list T) (k : Z) : list T :=
  if k <? 0 then firstn (Z.to_nat (Z.of_nat (length l) + k)) l
  else firstn (Z.to_nat k) l.

Definition slice_from {T : Type} (l : list T) (k : Z) : list T :=
  if k <? 0 then skipn (Z.to_nat (Z.of_nat (length l) + k)) l
  else skipn (Z.to_nat k) l.

Section Loops.
Context {A : Type} `{PyNum A}.

(** Modelled from the spec: [Message] ([pybodytrack/utils/Message.py]) is
    not among the sources; it is the envelope [{kind, payload}] whose
    payload is one row or a tuple (movement, start, end). *)
Inductive MessageObj : Type :=
| RowObj (row : LandmarkRow A)
| BlockObj (movement start_time end_time : A).

Record Message : Type := {
  what : Z;
  obj : MessageObj
}.

(** [stats_summary]: the lines printed, each a label and a value, and the
    exception that ended the call, if any. *)
Definition stats_summary (self : BodyTracking A) (movement : A)
    : list (string * A) * option run_exn :=
  let out1 := [("Raw amount of movement:"%string, movement)] in
  match movement_per_second self movement with
  | Raise e => (out1, Some (MethodError e))
  | Ok a1 =>
  let out2 := out1 ++ [("Amount of movement per second:"%string, a1)] in
  match movement_per_frame self movement with
  | Raise e => (out2, Some (MethodError e))
  | Ok a2 =>
  let out3 := out2 ++ [("Amount of movement per frame:"%string, a2)] in
  match selected_landmarks (tracker self) with
  | None => (out3, Some TypeError)
  | Some names =>
  match movement_per_landmark self movement (Z.of_nat (length names)) with
  | Raise e => (out3, Some (MethodError e))
  | Ok a3 =>
  let out4 := out3 ++ [("Amount of movement per landmark:"%string, a3)] in
  match normalized_movement_index self movement (Z.of_nat (length names)) with
  | Raise e => (out4, Some (MethodError e))
  | Ok a4 =>
      (out4 ++ [("Normalized amount of movement:"%string, a4)], None)
  end end end end end.

(** [save_csv]: the path handed to [tracker.save_to_csv]; [now] is
    [str(time.time())]. *)
Definition save_csv (self : BodyTracking A) (filename : option string)
    (now : string) : string :=
  match filename with
  | None => ("pose_data" ++ text self ++ "_" ++ now ++ ".csv")%string
  | Some name => name
  end.

(** The object together with what [__init__] creates besides the fields
    of [BodyTracking]: the worker thread and the two frame slots, and
    whether the video source and the windows were released. *)
Record Runtime : Type := {
  session : BodyTracking A;
  processing_thread : ThreadState;
  frame_to_process : option Frame;
  latest_processed_frame : option Frame;
  cap_released : bool;
  windows_destroyed : bool
}.

Definition new_runtime (self : BodyTracking A) : Runtime :=
  {| session := self;
     processing_thread := ThreadInitial;
     frame_to_process := None;
     latest_processed_frame := None;
     cap_released := false;
     windows_destroyed := false |}.

(** What the outside world answers during one iteration of a capture
    loop: [cap.isOpened()], [cap.read()], the processed frame the worker
    has stored by then, [cap.get(CAP_PROP_POS_MSEC)], the table
    [getData()] returns, and [cv2.waitKey(1)]. *)
Record Tick : Type := {
  cap_isOpened : bool;
  read_ret : bool;
  read_frame : Frame;
  worker_latest : option Frame;
  cap_pos_msec : A;
  table_now : DataFrame A;
  key : Z
}.

(** What a loop does that the outside sees, in order. *)
Inductive Event : Type :=
| Imshow (f : Frame)
| CallDistance (block : DataFrame A)
| SendMessage (m : Message).

Inductive LoopExit : Type :=
| LoopBroke
| LoopRaised (e : run_exn)
| LoopUnfinished.

(** The variables of a loop when it was left, or when the recorded
    iterations ran out ([LoopUnfinished]). *)
Record LoopEnd : Type := {
  end_events : list Event;
  end_last_index : nat;
  end_frame_buffer : DataFrame A;
  end_pending : option Frame;
  end_exit : LoopExit
}.

Definition emit (evs : list Event) (r : LoopEnd) : LoopEnd :=
  {| end_events := evs ++ end_events r;
     end_last_index := end_last_index r;
     end_frame_buffer := end_frame_buffer r;
     end_pending := end_pending r;
     end_exit := end_exit r |}.

Definition leave (how : LoopExit) (evs : list Event) (last_index : nat)
    (frame_buffer : DataFrame A) (pending : option Frame) : LoopEnd :=
  {| end_events := evs;
     end_last_index := last_index;
     end_frame_buffer := frame_buffer;
     end_pending := pending;
     end_exit := how |}.

(** [current_msec > self.endtime * 1000], when an end time is set. *)
Definition past_endtime (end_time : option A) (t : Tick) : bool :=
  match end_time with
  | Some e => gt (cap_pos_msec t) (mul e (of_int 1000))
  | None => false
  end.

(** The frame shown: the processed one if there is one, else the raw. *)
Definition display_frame (t : Tick) : Frame :=
  match worker_latest t with
  | Some f => f
  | None => read_frame t
  end.

(** [not df_all.empty and len(df_all) > last_index] *)
Definition has_new_rows (df_all : DataFrame A) (last_index : nat) : bool :=
  negb (match df_all with [] => true | _ => false end)
  && (last_index <? length df_all)%nat.

(** [cv2.waitKey(1) & 0xFF == ord('q')] *)
Definition pressed_q (t : Tick) : bool := Z.land (key t) 255 =? 113.

(** The loop of [start]. *)
Fixpoint start_loop (end_time : option A) (observer : bool)
    (ticks : list Tick) (last_index : nat) (pending : option Frame)
    : LoopEnd :=
  match ticks with
  | [] => leave LoopUnfinished [] last_index [] pending
  | t :: rest =>
      if negb (cap_isOpened t) then leave LoopBroke [] last_index [] pending
      else if negb (read_ret t) then leave LoopBroke [] last_index [] pending
      else
        let pending' := Some (read_frame t) in
        if past_endtime end_time t
        then leave LoopBroke [] last_index [] pending'
        else
          let df_all := table_now t in
          let fresh := has_new_rows df_all last_index in
          let new_rows := if fresh then skipn last_index df_all else [] in
          let sent :=
            if observer
            then map (fun row =>
                        SendMessage {| what := 1; obj := RowObj row |})
                     new_rows
            else [] in
          let last_index' := if fresh then length df_all else last_index in
          let evs := Imshow (display_frame t) :: sent in
          if pressed_q t then leave LoopBroke evs last_index' [] pending'
          else emit evs (start_loop end_time observer rest last_index'
                           pending')
  end.

(** The loop of [startbackup]. *)
Fixpoint startbackup_loop (end_time : option A) (ticks : list Tick)
    (pending : option Frame) : LoopEnd :=
  match ticks with
  | [] => leave LoopUnfinished [] 0 [] pending
  | t :: rest =>
      if negb (cap_isOpened t) then leave LoopBroke [] 0 [] pending
      else if negb (read_ret t) then leave LoopBroke [] 0 [] pending
      else
        let pending' := Some (read_frame t) in
        if past_endtime end_time t then leave LoopBroke [] 0 [] pending'
        else
          let evs := [Imshow (display_frame t)] in
          if pressed_q t then leave LoopBroke evs 0 [] pending'
          else emit evs (startbackup_loop end_time rest pending')
  end.

(** [len(frame_buffer) >= used_fps] *)
Definition buffer_full (frame_buffer : DataFrame A) (used_fps : PyNumber A)
    : bool :=
  match used_fps with
  | PyInt k => k <=? Z.of_nat (length frame_buffer)
  | PyFloat x => ge (of_int (Z.of_nat (length frame_buffer))) x
  end.

(** The block step of [startbackup2], run when the buffer is full and a
    distance function is given: the events it causes, the buffer it leaves
    and the exception it raises, if any. *)
Definition take_block (observer : bool)
    (distance_function : DataFrame A -> result A)
    (used_fps : PyNumber A) (frame_buffer : DataFrame A)
    : list Event * DataFrame A * option run_exn :=
  match used_fps with
  | PyFloat _ => ([], frame_buffer, Some TypeError)
  | PyInt k =>
      let buffer_df := slice_to frame_buffer k in
      let frame_buffer' := slice_from frame_buffer k in
      match distance_function buffer_df with
      | Raise e =>
          ([CallDistance buffer_df], frame_buffer', Some (MethodError e))
      | Ok movement =>
          match getitem buffer_df 0, getitem buffer_df (-1) with
          | Ok first_row, Ok last_row =>
              let msg := {| what := 1;
                            obj := BlockObj movement (timestamp first_row)
                                     (timestamp last_row) |} in
              (CallDistance buffer_df
                 :: (if observer then [SendMessage msg] else []),
               frame_buffer', None)
          | Raise e, _ | _, Raise e =>
              ([CallDistance buffer_df], frame_buffer',
               Some (MethodError e))
          end
      end
  end.

(** The loop of [startbackup2]. *)
Fixpoint startbackup2_loop (end_time : option A) (observer : bool)
    (distance_function : option (DataFrame A -> result A))
    (used_fps : PyNumber A) (ticks : list Tick) (last_index : nat)
    (frame_buffer : DataFrame A) (pending : option Frame) : LoopEnd :=
  match ticks with
  | [] => leave LoopUnfinished [] last_index frame_buffer pending
  | t :: rest =>
      if negb (cap_isOpened t)
      then leave LoopBroke [] last_index frame_buffer pending
      else if negb (read_ret t)
      then leave LoopBroke [] last_index frame_buffer pending
      else
        let pending' := Some (read_frame t) in
        if past_endtime end_time t
        then leave LoopBroke [] last_index frame_buffer pending'
        else
          let df_all := table_now t in
          let fresh := has_new_rows df_all last_index in
          let buffer1 :=
            if fresh then frame_buffer ++ skipn last_index df_all
            else frame_buffer in
          let last_index' := if fresh then length df_all else last_index in
          let shown := [Imshow (display_frame t)] in
          let '(evs, buffer2, raised) :=
            match distance_function with
            | Some f =>
                if buffer_full buffer1 used_fps
                then take_block observer f used_fps buffer1
                else ([], buffer1, None)
            | None => ([], buffer1, None)
            end in
          match raised with
          | Some e =>
              leave (LoopRaised e) (shown ++ evs) last_index' buffer2
                    pending'
          | None =>
              if pressed_q t
              then leave LoopBroke (shown ++ evs) last_index' buffer2
                         pending'
              else emit (shown ++ evs)
                     (startbackup2_loop end_time observer distance_function
                        used_fps rest last_index' buffer2 pending')
          end
  end.

(** How a call ended: it returned, it raised, or the recorded iterations
    ran out while its loop was still running; each with the object as it
    then was and the events so far. *)
Inductive outcome : Type :=
| Returned (rt : Runtime) (evs : list Event)
| Raised (e : run_exn) (rt : Runtime) (evs : list Event)
| Unfinished (rt : Runtime) (evs : list Event).

Definition with_stop_processing (self : BodyTracking A) (b : bool)
    : BodyTracking A :=
  {| tracker := tracker self; mode := mode self;
     path_video := path_video self; cap := cap self; fps := fps self;
     frame_interval := frame_interval self; text := text self;
     stop_processing := b;
     starttime := starttime self; endtime := endtime self;
     console := console self |}.

(** [stop]: [join] raises [RuntimeError] on a thread that was never
    started and otherwise returns once the worker has left its loop. *)
Definition stop (rt : Runtime) (evs : list Event) : outcome :=
  let flagged := with_stop_processing (session rt) true in
  match processing_thread rt with
  | ThreadInitial =>
      Raised RuntimeError
        {| session := flagged;
           processing_thread := ThreadInitial;
           frame_to_process := frame_to_process rt;
           latest_processed_frame := latest_processed_frame rt;
           cap_released := cap_released rt;
           windows_destroyed := windows_destroyed rt |} evs
  | _ =>
      Returned
        {| session := flagged;
           processing_thread := ThreadStopped;
           frame_to_process := frame_to_process rt;
           latest_processed_frame := latest_processed_frame rt;
           cap_released := true;
           windows_destroyed := true |} evs
  end.

(** The object after a loop: the thread started, the pending slot as the
    loop left it. *)
Definition after_loop (rt : Runtime) (r : LoopEnd) : Runtime :=
  {| session := session rt;
     processing_thread := ThreadStarted;
     frame_to_process := end_pending r;
     latest_processed_frame := latest_processed_frame rt;
     cap_released := cap_released rt;
     windows_destroyed := windows_destroyed rt |}.

(** What follows a loop: [stop] when it was left by [break], nothing when
    it raised. *)
Definition finish (rt : Runtime) (r : LoopEnd) : outcome :=
  match end_exit r with
  | LoopBroke => stop (after_loop rt r) (end_events r)
  | LoopRaised e => Raised e (after_loop rt r) (end_events r)
  | LoopUnfinished => Unfinished (after_loop rt r) (end_events r)
  end.

(** [start]: [Thread.start] raises [RuntimeError] on a thread that was
    started before. *)
Definition start (rt : Runtime) (observer : bool)
    (fps_arg : option (PyNumber A)) (ticks : list Tick) : outcome :=
  match processing_thread rt with
  | ThreadInitial =>
      finish rt (start_loop (endtime (session rt)) observer ticks 0
                   (frame_to_process rt))
  | _ => Raised RuntimeError rt []
  end.

(** [startbackup] *)
Definition startbackup (rt : Runtime) (ticks : list Tick) : outcome :=
  match processing_thread rt with
  | ThreadInitial =>
      finish rt (startbackup_loop (endtime (session rt)) ticks
                   (frame_to_process rt))
  | _ => Raised RuntimeError rt []
  end.

(** [startbackup2]; [self_fps] is [self.fps] as Python holds it. *)
Definition startbackup2 (rt : Runtime) (self_fps : PyNumber A)
    (observer : bool)
    (distance_function : option (DataFrame A -> result A))
    (fps_arg : option (PyNumber A)) (ticks : list Tick) : outcome :=
  let used_fps := match fps_arg with Some k => k | None => self_fps end in
  match processing_thread rt with
  | ThreadInitial =>
      finish rt (startbackup2_loop (endtime (session rt)) observer
                   distance_function used_fps ticks 0 []
                   (frame_to_process rt))
  | _ => Raised RuntimeError rt []
  end.

(** The rows an event list sent to the observer, the blocks it passed to
    the distance function, and the frames it showed. *)
Definition sent_rows (evs : list Event) : DataFrame A :=
  flat_map (fun ev => match ev with
                      | SendMessage {| obj := RowObj row |} => [row]
                      | _ => []
                      end) evs.

Definition blocks_of (evs : list Event) : list (DataFrame A) :=
  flat_map (fun ev => match ev with
                      | CallDistance block => [block]
                      | _ => []
                      end) evs.

Definition shown_frames (evs : list Event) : list Frame :=
  flat_map (fun ev => match ev with
                      | Imshow f => [f]
                      | _ => []
                      end) evs.

(** Tables read one after the other from an append-only log: each extends
    the one before, starting from [prev]. *)
Fixpoint append_only (prev : DataFrame A) (tables : list (DataFrame A))
    : Prop :=
  match tables with
  | [] => True
  | T :: rest => (exists more, T = prev ++ more) /\ append_only T rest
  end.

(** The table read in iteration [i] (counting from 0). *)
Definition table_at (ticks : list Tick) (i : nat) : DataFrame A :=
  match nth_error ticks i with
  | Some t => table_now t
  | None => []
  end.

(** An iteration that runs to its end and does not leave the loop. *)
Definition runs_through (end_time : option A) (t : Tick) : bool :=
  cap_isOpened t && read_ret t && negb (past_endtime end_time t)
  && negb (pressed_q t).

(** The event that sends one row to the observer. *)
Definition send_row (row : LandmarkRow A) : Event :=
  SendMessage {| what := 1; obj := RowObj row |}.

(** The block step of one iteration of [startbackup2]. *)
Definition block_step (observer : bool)
    (distance_function : option (DataFrame A -> result A))
    (used_fps : PyNumber A) (buffer1 : DataFrame A)
    : list Event * DataFrame A * option run_exn :=
  match distance_function with
  | Some f =>
      if buffer_full buffer1 used_fps
      then take_block observer f used_fps buffer1
      else ([], buffer1, None)
  | None => ([], buffer1, None)
  end.

(** The messages an event list sent, and the message [startbackup2]
    builds for a block. *)
Definition messages_of (evs : list Event) : list Message :=
  flat_map (fun ev => match ev with
                      | SendMessage m => [m]
                      | _ => []
                      end) evs.

Definition block_message (f : DataFrame A -> result A)
    (block : DataFrame A) : option Message :=
  match f block, getitem block 0, getitem block (-1) with
  | Ok movement, Ok first_row, Ok last_row =>
      Some {| what := 1;
              obj := BlockObj movement (timestamp first_row)
                       (timestamp last_row) |}
  | _, _, _ => None
  end.
End Loops.

Arguments MessageObj A : clear implicits.
Arguments Message A : clear implicits.
Arguments Runtime A : clear implicits.
Arguments Tick A : clear implicits.
Arguments Event A : clear implicits.
Arguments LoopEnd A : clear implicits.
Arguments outcome A : clear implicits.

(** ** The worker thread and the two frame slots *)

Section Worker.
Context {A : Type} `{PyNum A}.

(** Modelled from the spec: [tracker.process_frame] is not among the
    sources.  The specification has it append one row, stamped with the
    time of processing, if and only if the backend finds landmarks in the
    frame, and draw the overlay on the frame it was given. *)
Record Backend : Type := {
  detect : Frame -> option (list A);
  annotate : Frame -> Frame
}.

Definition process_frame (backend : Backend) (now : A) (df : DataFrame A)
    (frame : Frame) : DataFrame A * Frame :=
  (match detect backend frame with
   | Some cs => df ++ [{| timestamp := now; coords := cs |}]
   | None => df
   end,
   annotate backend frame).

(** Where the worker stands in [_processing_thread_func]: at the loop
    test, at the first locked block, at the branch on the frame it took,
    at the second locked block with the frame it processed, or past the
    loop. *)
Inductive WorkerPc : Type :=
| AtWhile
| AtTake
| AtBranch (frame : option Frame)
| AtStore (frame : Frame)
| WorkerExited.

(** What the two threads share, with the worker's position; [processed]
    lists the frames given to [process_frame], in order. *)
Record Shared : Type := {
  pending_slot : option Frame;
  processed_slot : option Frame;
  stop_flag : bool;
  log : DataFrame A;
  worker_pc : WorkerPc;
  processed : list Frame
}.

Definition initial_shared : Shared :=
  {| pending_slot := None; processed_slot := None; stop_flag := false;
     log := []; worker_pc := AtWhile; processed := [] |}.

(** One step of either thread: the capture loop stores a frame in the
    pending slot (its locked block), [stop] sets the flag, or the worker
    moves on by one block at the time [now]. *)
Inductive Action : Type :=
| Publish (frame : Frame)
| SetStop
| WorkerStep (now : A).

Definition worker_step (backend : Backend) (now : A) (s : Shared) : Shared :=
  match worker_pc s with
  | AtWhile =>
      {| pending_slot := pending_slot s; processed_slot := processed_slot s;
         stop_flag := stop_flag s; log := log s;
         worker_pc := if stop_flag s then WorkerExited else AtTake;
         processed := processed s |}
  | AtTake =>
      {| pending_slot := pending_slot s; processed_slot := processed_slot s;
         stop_flag := stop_flag s; log := log s;
         worker_pc := AtBranch (pending_slot s);
         processed := processed s |}
  | AtBranch None =>
      {| pending_slot := pending_slot s; processed_slot := processed_slot s;
         stop_flag := stop_flag s; log := log s;
         worker_pc := AtWhile;
         processed := processed s |}
  | AtBranch (Some frame) =>
      let '(df, drawn) := process_frame backend now (log s) frame in
      {| pending_slot := pending_slot s; processed_slot := processed_slot s;
         stop_flag := stop_flag s; log := df;
         worker_pc := AtStore drawn;
         processed := processed s ++ [frame] |}
  | AtStore drawn =>
      {| pending_slot := pending_slot s; processed_slot := Some drawn;
         stop_flag := stop_flag s; log := log s;
         worker_pc := AtWhile;
         processed := processed s |}
  | WorkerExited => s
  end.

Definition act (backend : Backend) (s : Shared) (a : Action) : Shared :=
  match a with
  | Publish frame =>
      {| pending_slot := Some frame; processed_slot := processed_slot s;
         stop_flag := stop_flag s; log := log s;
         worker_pc := worker_pc s; processed := processed s |}
  | SetStop =>
      {| pending_slot := pending_slot s; processed_slot := processed_slot s;
         stop_flag := true; log := log s;
         worker_pc := worker_pc s; processed := processed s |}
  | WorkerStep now => worker_step backend now s
  end.

Definition run (backend : Backend) (acts : list Action) (s : Shared)
    : Shared :=
  fold_left (act backend) acts s.

(** The frames a sequence of steps publishes, in order. *)
Definition published (acts : list Action) : list Frame :=
  flat_map (fun a => match a with Publish frame => [frame] | _ => [] end)
           acts.

(** The tables read after each of several stretches of steps. *)
Fixpoint snapshots (backend : Backend) (stretches : list (list Action))
    (s : Shared) : list (DataFrame A) :=
  match stretches with
  | [] => []
  | acts :: rest =>
      log (run backend acts s) :: snapshots backend rest (run backend acts s)
  end.

(** Whether the backend finds a pose in a frame. *)
Definition detected (backend : Backend) (frame : Frame) : bool :=
  match detect backend frame with
  | Some _ => true
  | None => false
  end.

(** The steps of one pass of the worker through its loop that finds a
    frame: the test, the first locked block, the processing, the second
    locked block; at the times [fst (fst (fst p))], ... *)
Definition pass_steps (p : A * A * A * A) : list Action :=
  let '(n1, n2, n3, n4) := p in
  [WorkerStep n1; WorkerStep n2; WorkerStep n3; WorkerStep n4].

(** What is known of the frames in flight, for a list [frames] of
    published frames. *)
Definition only_published (backend : Backend) (frames : list Frame)
    (s : Shared) : Prop :=
  (forall f, pending_slot s = Some f -> In f frames) /\
  (forall f, worker_pc s = AtBranch (Some f) -> In f frames) /\
  (forall g, worker_pc s = AtStore g ->
     exists f, In f frames /\ g = annotate backend f) /\
  (forall g, processed_slot s = Some g ->
     exists f, In f frames /\ g = annotate backend f) /\
  Forall (fun f => In f frames) (processed s).
End Worker.

Arguments Backend A : clear implicits.
Arguments Shared A : clear implicits.
Arguments Action A : clear implicits.

(** Four iterations seen by a capture loop: the table grows from no row
    to three, then the stream ends. *)
Definition example_ticks : list (Tick float) :=
  [ {| cap_isOpened := true; read_ret := true; read_frame := 100;
       worker_latest := None; cap_pos_msec := 0%float;
       table_now := []; key := -1 |};
    {| cap_isOpened := true; read_ret := true; read_frame := 101;
       worker_latest := Some 100; cap_pos_msec := 33%float;
       table_now := table [(0, 0)]%float; key := -1 |};
    {| cap_isOpened := true; read_ret := true; read_frame := 102;
       worker_latest := Some 101; cap_pos_msec := 66%float;
       table_now := table [(0, 0); (1, 1); (2, 4)]%float; key := -1 |};
    {| cap_isOpened := true; read_ret := false; read_frame := 0;
       worker_latest := Some 102; cap_pos_msec := 66%float;
       table_now := table [(0, 0); (1, 1); (2, 4)]%float; key := -1 |} ].

(** A backend that finds a pose in every frame with an even number. *)
Definition even_backend : Backend float :=
  {| detect := fun f => if Z.even f then Some [1%float] else None;
     annotate := fun f => f + 1000 |}.

(** ** Indexing lemmas *)

Section Indexing.
Context {T : Type}.

Lemma getitem_nil (i : Z) : getitem (@nil T) i = Raise IndexError.
Proof.
  unfold getitem; simpl.
  destruct (i <? 0) eqn:E.
  - rewrite Z.add_0_r.
    replace (0 <=? i) with false; [reflexivity|].
    apply Z.ltb_lt in E. symmetry. apply Z.leb_gt. exact E.
  - destruct (0 <=? i); simpl; [|reflexivity].
    replace (i <? 0) with false; reflexivity.
Qed.

Lemma getitem_first (x : T) (l : list T) : getitem (x :: l) 0 = Ok x.
Proof.
  unfold getitem.
  change (0 <? 0) with false; cbv iota.
  change (0 <=? 0) with true.
  replace (0 <? Z.of_nat (length (x :: l))) with true; [reflexivity|].
  symmetry. apply Z.ltb_lt. simpl length. lia.
Qed.

Lemma last_cons (x y : T) (l : list T) : last (y :: l) x = last l y.
Proof.
  revert x y. induction l as [|z l IH]; intros x y; [reflexivity|].
  change (last (z :: l) x = last (z :: l) y).
  rewrite (IH x z), (IH y z). reflexivity.
Qed.

Lemma nth_error_last (x : T) (l : list T) :
  nth_error (x :: l) (length l) = Some (last l x).
Proof.
  revert x. induction l as [|y l IH]; intro x; [reflexivity|].
  change (nth_error (y :: l) (length l) = Some (last (y :: l) x)).
  rewrite IH, last_cons. reflexivity.
Qed.

Lemma getitem_last (x : T) (l : list T) :
  getitem (x :: l) (-1) = Ok (last l x).
Proof.
  unfold getitem.
  change (-1 <? 0) with true; cbv iota.
  replace (-1 + Z.of_nat (length (x :: l))) with (Z.of_nat (length l))
    by (simpl length; lia).
  replace (0 <=? Z.of_nat (length l)) with true
    by (symmetry; apply Z.leb_le; lia).
  replace (Z.of_nat (length l) <? Z.of_nat (length (x :: l))) with true
    by (symmetry; apply Z.ltb_lt; simpl length; lia).
  rewrite Nat2Z.id, nth_error_last. reflexivity.
Qed.

(** A filter that keeps every element returns the list itself. *)
Lemma filter_all (f : T -> bool) (l : list T) :
  (forall x, In x l -> f x = true) -> filter f l = l.
Proof.
  induction l as [|x l IH]; intro Hall; [reflexivity|].
  simpl. rewrite (Hall x (or_introl eq_refl)).
  f_equal. apply IH. intros y Hy. apply Hall. right. exact Hy.
Qed.

(** A filter that keeps no element returns the empty list. *)
Lemma filter_none (f : T -> bool) (l : list T) :
  (forall x, In x l -> f x = false) -> filter f l = [].
Proof.
  induction l as [|x l IH]; intro Hnone; [reflexivity|].
  simpl. rewrite (Hnone x (or_introl eq_refl)).
  apply IH. intros y Hy. apply Hnone. right. exact Hy.
Qed.
End Indexing.

(** ** What the aggregators compute, for any kind of number *)

Section Generic.
Context {A : Type} `{PyNum A}.

Implicit Types (self : BodyTracking A) (df : DataFrame A).

Lemma series_duration_nonempty df :
  df <> [] -> exists d, series_duration df = Some d.
Proof.
  destruct df as [|r df]; [intro E; contradiction E; reflexivity|].
  intros _. eexists. reflexivity.
Qed.

(** On a table with a duration, the two timestamp reads succeed and the
    source's [duration] is [series_duration]. *)
Lemma movement_per_second_unfold self total d :
  series_duration (getData self) = Some d ->
  movement_per_second self total =
    if le d (of_int 0) then Ok (of_int 0) else Ok (div total d).
Proof.
  unfold movement_per_second, series_duration.
  destruct (map timestamp (getData self)) as [|t0 rest]; [discriminate|].
  intro E. injection E as <-.
  rewrite getitem_last, getitem_first. reflexivity.
Qed.

Lemma normalized_movement_index_unfold self total n d :
  series_duration (getData self) = Some d ->
  normalized_movement_index self total n =
    if le d (of_int 0) || (n <=? 0) then Ok (of_int 0)
    else
      denominator <- mul_int d n ;; Ok (div total denominator).
Proof.
  unfold normalized_movement_index, series_duration.
  destruct (map timestamp (getData self)) as [|t0 rest]; [discriminate|].
  intro E. injection E as <-.
  rewrite getitem_last, getitem_first. reflexivity.
Qed.

Lemma filter_interval_unfold self r0 rest a b :
  getData self = r0 :: rest ->
  filter_interval self a b =
    Ok (filter (fun r => ge (timestamp r) (add (timestamp r0) a)
                         && le (timestamp r) (add (timestamp r0) b))
               (r0 :: rest)).
Proof.
  intro E. unfold filter_interval. rewrite E, getitem_first. reflexivity.
Qed.

Lemma movement_per_frame_returns self total :
  returns (movement_per_frame self total).
Proof.
  unfold movement_per_frame, truediv_len.
  destruct (Z.of_nat (length (getData self)) <=? 1) eqn:E.
  - eexists; reflexivity.
  - apply Z.leb_gt in E.
    replace (Z.of_nat (length (getData self)) - 1 =? 0) with false
      by (symmetry; apply Z.eqb_neq; lia).
    eexists; reflexivity.
Qed.

(** On an empty table the three functions that read a timestamp raise. *)
Lemma empty_table_raises self total n a b :
  getData self = [] ->
  movement_per_second self total = Raise IndexError /\
  normalized_movement_index self total n = Raise IndexError /\
  filter_interval self a b = Raise IndexError.
Proof.
  intro E.
  unfold movement_per_second, normalized_movement_index, filter_interval.
  rewrite E. simpl map. rewrite !getitem_nil. repeat split; reflexivity.
Qed.

Lemma le_not_gt (a b : A) : le a b = true -> gt a b = false.
Proof. unfold le, gt. destruct (cmp a b) as [[]|]; congruence. Qed.
End Generic.

(** ** Totality of the aggregators *)

(** C1.  The aggregators are not total.  On an object whose table is empty
    (no row was appended yet), [movement_per_second],
    [normalized_movement_index] and [filter_interval] raise [IndexError] on
    the first timestamp they read, for every total, landmark count and pair
    of offsets, whereas [movement_per_frame] returns 0 there.  And with a
    [float] total, [movement_per_landmark] raises [OverflowError] for a
    landmark count too large to convert, such as [10^400]. *)
Theorem aggregators_raise_on_empty_table :
  (forall (A : Type) (num : PyNum A) (self : BodyTracking A) (total a b : A)
          (n : Z),
     getData self = [] ->
     movement_per_second self total = Raise IndexError /\
     normalized_movement_index self total n = Raise IndexError /\
     filter_interval self a b = Raise IndexError /\
     movement_per_frame self total = Ok (of_int 0)) /\
  (forall (self : BodyTracking float) (total : float),
     movement_per_landmark self total (10 ^ 400) = Raise OverflowError).
Proof.
  split.
  - intros A num self total a b n E.
    destruct (empty_table_raises self total n a b E) as [Hs [Hi Hf]].
    repeat split; try assumption.
    unfold movement_per_frame. rewrite E. reflexivity.
  - intros self total. vm_compute. reflexivity.
Qed.

(** C1, on a session whose worker has appended no row yet. *)
Lemma aggregators_raise_on_fresh_session :
  getData empty_session = [] /\
  movement_per_second empty_session 6%float = Raise IndexError /\
  normalized_movement_index empty_session 6%float 2 = Raise IndexError /\
  filter_interval empty_session 0%float 1%float = Raise IndexError /\
  movement_per_frame empty_session 6%float = Ok 0%float /\
  movement_per_landmark empty_session 1%float (10 ^ 400)
    = Raise OverflowError.
Proof.
  destruct aggregators_raise_on_empty_table as [Hempty Hbig].
  destruct (Hempty float float_num empty_session 6%float 0%float 1%float 2
              eq_refl) as [Hs [Hi [Hf Hm]]].
  split; [reflexivity|]. split; [exact Hs|]. split; [exact Hi|].
  split; [exact Hf|]. split; [exact Hm | apply Hbig].
Defined.

(** ** Degenerate boundaries *)

(** What holds at the boundaries: [movement_per_landmark] returns 0 when
    [num_landmarks <= 0].  On a table that has a duration [d] (a table with
    at least one row), [movement_per_second] returns 0 when [d <= 0], and
    [normalized_movement_index] returns 0 when [d <= 0] or
    [num_landmarks <= 0]; each for every total. *)
Lemma degenerate_boundaries_return_zero {A : Type} `{PyNum A}
    (self : BodyTracking A) (total : A) (n : Z) :
  (n <= 0 -> movement_per_landmark self total n = Ok (of_int 0)) /\
  (forall d, series_duration (getData self) = Some d ->
     (le d (of_int 0) = true ->
        movement_per_second self total = Ok (of_int 0)) /\
     (le d (of_int 0) = true \/ n <= 0 ->
        normalized_movement_index self total n = Ok (of_int 0))).
Proof.
  split.
  - intro Hn. unfold movement_per_landmark.
    replace (n <=? 0) with true; [reflexivity|].
    symmetry. apply Z.leb_le. exact Hn.
  - intros d Hd. split.
    + intro Hle. rewrite (movement_per_second_unfold self total d Hd), Hle.
      reflexivity.
    + intro Hdeg.
      rewrite (normalized_movement_index_unfold self total n d Hd).
      destruct Hdeg as [Hle | Hn].
      * rewrite Hle. reflexivity.
      * replace (n <=? 0) with true by (symmetry; apply Z.leb_le; exact Hn).
        rewrite orb_true_r. reflexivity.
Qed.

(** C3.  [normalized_movement_index] does not return 0 at the boundary
    [num_landmarks <= 0] when the table is empty: it reads the timestamps
    before it tests the landmark count, and the read raises [IndexError],
    whereas [movement_per_landmark] returns 0 for the same count.  On every
    table that has a duration the three functions return 0 at their
    boundaries. *)
Theorem normalized_index_raises_before_landmark_test {A : Type} `{PyNum A}
    (self : BodyTracking A) (total : A) (n : Z) :
  (getData self = [] -> n <= 0 ->
     normalized_movement_index self total n = Raise IndexError /\
     movement_per_second self total = Raise IndexError /\
     movement_per_landmark self total n = Ok (of_int 0)) /\
  (forall d, series_duration (getData self) = Some d ->
     (n <= 0 -> movement_per_landmark self total n = Ok (of_int 0)) /\
     (le d (of_int 0) = true ->
        movement_per_second self total = Ok (of_int 0)) /\
     (le d (of_int 0) = true \/ n <= 0 ->
        normalized_movement_index self total n = Ok (of_int 0))).
Proof.
  destruct (degenerate_boundaries_return_zero self total n) as [Hl Hd].
  split.
  - intros E Hn.
    destruct (empty_table_raises self total n total total E) as [Hs [Hi _]].
    split; [exact Hi|]. split; [exact Hs | exact (Hl Hn)].
  - intros d Ed. destruct (Hd d Ed) as [Hsec Hidx].
    split; [exact Hl|]. split; assumption.
Qed.

(** C3, on a session whose worker has appended no row yet, with no
    landmark; and on a single-row table, whose duration is 0. *)
Lemma normalized_index_raises_on_fresh_session :
  getData empty_session = [] /\
  normalized_movement_index empty_session 6%float 0 = Raise IndexError /\
  movement_per_landmark empty_session 6%float 0 = Ok 0%float /\
  series_duration (getData single_row_session) = Some 0%float /\
  movement_per_second single_row_session 6%float = Ok 0%float /\
  normalized_movement_index single_row_session 6%float 0 = Ok 0%float.
Proof.
  destruct (normalized_index_raises_before_landmark_test
              empty_session 6%float 0) as [Hempty _].
  destruct (Hempty eq_refl ltac:(lia)) as [Hi [_ Hl]].
  destruct (normalized_index_raises_before_landmark_test
              single_row_session 6%float 0) as [_ Hrow].
  destruct (Hrow 0%float eq_refl) as [_ [Hsec Hidx]].
  split; [reflexivity|]. split; [exact Hi|]. split; [exact Hl|].
  split; [reflexivity|]. split; [apply Hsec; reflexivity|].
  apply Hidx. left. reflexivity.
Defined.

(** ** The specification's example *)

(** C6.  On the table (t, x) = (0, 0), (1, 1), (2, 4) with a total movement
    of 6: [movement_per_second] is 3.0, [movement_per_frame] is 3.0,
    [movement_per_landmark] with 2 landmarks is 3.0 and
    [normalized_movement_index] with 2 landmarks is 1.5; in binary64 and in
    exact arithmetic alike. *)
Theorem example_statistics :
  (movement_per_second example_session_float 6%float = Ok 3%float /\
   movement_per_frame example_session_float 6%float = Ok 3%float /\
   movement_per_landmark example_session_float 6%float 2 = Ok 3%float /\
   normalized_movement_index example_session_float 6%float 2 = Ok 1.5%float)
  /\
  (movement_per_second example_session_exact (of_int 6) = Ok (of_int 3) /\
   movement_per_frame example_session_exact (of_int 6) = Ok (of_int 3) /\
   movement_per_landmark example_session_exact (of_int 6) 2 = Ok (of_int 3) /\
   normalized_movement_index example_session_exact (of_int 6) 2
     = Ok (Q2Qc (3 # 2))).
Proof.
  split.
  - vm_compute. repeat split.
  - repeat split; vm_compute; f_equal; apply Qc_is_canon; reflexivity.
Qed.

(** ** Construction *)

(** C7.  A mode that is neither [VideoMode.CAMERA] nor [VideoMode.VIDEO]
    makes the constructor raise, so no object is built; when the processor
    and the tracker were built, the error is the [ValueError] of the mode
    test. *)
Theorem invalid_mode_aborts_construction {A : Type} `{PyNum A}
    (env : Env A) (processor_arg : PoseProcessor) (mode_arg : VideoMode)
    (path model : string) (selected : option (list string)) :
  mode_arg <> CAMERA -> mode_arg <> VIDEO ->
  (exists e,
     BodyTracking_init env processor_arg mode_arg path model selected
       = Raise e) /\
  (forall p trk,
     (processor_arg = MEDIAPIPE /\ new_MediaPipeProcessor env = Ok p) \/
     (processor_arg = YOLO /\ new_YoloProcessor env model = Ok p) ->
     new_CameraPoseTracker env p selected = Ok trk ->
     BodyTracking_init env processor_arg mode_arg path model selected
       = Raise ValueError).
Proof.
  intros Hcam Hvid.
  destruct mode_arg as [| |tag]; [contradiction Hcam; reflexivity
                                 |contradiction Hvid; reflexivity|].
  split.
  - unfold BodyTracking_init.
    destruct processor_arg; simpl.
    + destruct (new_MediaPipeProcessor env) as [p|e]; simpl;
        [|eexists; reflexivity].
      destruct (new_CameraPoseTracker env p selected); simpl;
        eexists; reflexivity.
    + destruct (new_YoloProcessor env model) as [p|e]; simpl;
        [|eexists; reflexivity].
      destruct (new_CameraPoseTracker env p selected); simpl;
        eexists; reflexivity.
    + eexists; reflexivity.
  - intros p trk [[-> Hp] | [-> Hp]] Htrk; unfold BodyTracking_init;
      rewrite Hp; simpl; rewrite Htrk; reflexivity.
Qed.

(** C7, for the mode value 2 in an environment where the external
    constructors succeed. *)
Lemma invalid_mode_two_raises_ValueError :
  BodyTracking_init working_env MEDIAPIPE (OtherMode 2) "clip.mp4" EmptyString None
    = Raise ValueError.
Proof.
  refine (proj2 (invalid_mode_aborts_construction working_env MEDIAPIPE
                   (OtherMode 2) "clip.mp4" EmptyString None _ _)
            MediaPipeProcessor
            {| processor := MediaPipeProcessor; selected_landmarks := None;
               data := [] |} _ _).
  - discriminate.
  - discriminate.
  - left. split; reflexivity.
  - reflexivity.
Defined.

(** ** The time window *)

(** C8.  In VIDEO mode, [set_times(startsec, endsec)] with
    [endsec <= startsec] returns normally, prints the warning, and leaves
    [starttime], [endtime] and the video source as they were. *)
Theorem set_times_rejects_inverted_window {A : Type} `{PyNum A}
    (self : BodyTracking A) (startsec endsec : A) :
  mode self = VIDEO -> le endsec startsec = true ->
  exists self',
    set_times self startsec endsec = Ok self' /\
    starttime self' = starttime self /\
    endtime self' = endtime self /\
    cap self' = cap self /\
    console self' =
      console self ++ ["End time must be greater than start time"%string].
Proof.
  intros Hmode Hle. unfold set_times. rewrite Hmode, (le_not_gt _ _ Hle).
  eexists. split; [reflexivity|]. repeat split.
Qed.

(** C8, on a session whose window is [2, 8]: asking for [9, 3] keeps it. *)
Lemma set_times_rejects_nine_to_three :
  exists self',
    set_times windowed_session 9%float 3%float = Ok self' /\
    starttime self' = starttime windowed_session /\
    endtime self' = endtime windowed_session /\
    cap self' = cap windowed_session /\
    console self' =
      console windowed_session
        ++ ["End time must be greater than start time"%string].
Proof.
  apply (set_times_rejects_inverted_window windowed_session 9%float 3%float);
    reflexivity.
Defined.

(** C9.  In CAMERA mode [set_times] changes nothing, whatever its arguments:
    it returns the object as it was (same [starttime], [endtime], video
    source and console); on a freshly constructed camera session both times
    are, and stay, [None]. *)
Theorem set_times_is_noop_in_camera_mode {A : Type} `{PyNum A}
    (self : BodyTracking A) (startsec endsec : A) :
  (mode self = CAMERA -> set_times self startsec endsec = Ok self) /\
  (forall env processor_arg path model selected,
     BodyTracking_init env processor_arg CAMERA path model selected = Ok self ->
     set_times self startsec endsec = Ok self /\
     starttime self = None /\ endtime self = None /\
     pos_msec_writes (cap self) = [] /\ console self = []).
Proof.
  assert (Hnoop : mode self = CAMERA -> set_times self startsec endsec = Ok self).
  { intro Hmode. unfold set_times. rewrite Hmode. reflexivity. }
  split; [exact Hnoop|].
  intros env processor_arg path model selected Hinit.
  unfold BodyTracking_init in Hinit.
  destruct (match processor_arg with
            | MEDIAPIPE => p <- new_MediaPipeProcessor env ;; Ok (Some p)
            | YOLO => p <- new_YoloProcessor env model ;; Ok (Some p)
            | OtherProcessor _ => Ok None
            end) as [[p|]|e]; simpl in Hinit; try discriminate Hinit.
  destruct (new_CameraPoseTracker env p selected) as [trk|e]; simpl in Hinit;
    [|discriminate Hinit].
  injection Hinit as <-. simpl.
  split; [apply Hnoop; reflexivity|]. repeat split.
Qed.

(** C9, on a camera session built by the constructor. *)
Lemma set_times_on_fresh_camera_session :
  exists self,
    BodyTracking_init working_env MEDIAPIPE CAMERA EmptyString EmptyString None = Ok self /\
    mode self = CAMERA /\
    set_times self 2%float 8%float = Ok self.
Proof.
  eexists. split; [reflexivity|]. split; [reflexivity|].
  refine (proj1 (set_times_is_noop_in_camera_mode _ 2%float 8%float) _).
  reflexivity.
Defined.

(** ** Independence from the table *)

(** C10.  [movement_per_landmark] is a function of its two arguments only:
    two objects, whatever tables and settings they hold, give the same
    answer for the same total and landmark count. *)
Theorem movement_per_landmark_ignores_state {A : Type} `{PyNum A}
    (self1 self2 : BodyTracking A) (total : A) (n : Z) :
  movement_per_landmark self1 total n = movement_per_landmark self2 total n.
Proof. unfold movement_per_landmark. reflexivity. Qed.

(** ** Ordered numbers *)

Section Ordered.
Context {A : Type} {num : PyNum A} {laws : LawfulNum A}.

Implicit Types (self : BodyTracking A) (t : A).

(** In a non-decreasing sequence every element lies between the first and
    the last. *)
Lemma nondecreasing_bounds t0 (rest : list A) :
  nondecreasing (t0 :: rest) = true ->
  le (last rest t0) (last rest t0) = true ->
  forall t, In t (t0 :: rest) ->
    le t0 t = true /\ le t (last rest t0) = true.
Proof.
  revert t0. induction rest as [|t1 rest IH]; intros t0 Hsorted Hlast t Hin.
  - destruct Hin as [<- | []]. split; exact Hlast.
  - change (le t0 t1 && nondecreasing (t1 :: rest) = true) in Hsorted.
    apply andb_true_iff in Hsorted as [H01 Hrest].
    rewrite last_cons in Hlast |- *.
    pose proof (IH t1 Hrest Hlast) as Hbounds.
    destruct Hin as [<- | Hin].
    + split; [exact (le_refl_l _ _ H01)|].
      apply le_trans with t1; [exact H01|].
      apply (Hbounds t1). left. reflexivity.
    + destruct (Hbounds t Hin) as [Hlo Hhi].
      split; [apply le_trans with t1; assumption | exact Hhi].
Qed.

Lemma ge_add_zero t0 t : ge t (add t0 (of_int 0)) = le t0 t.
Proof. rewrite <- ge_le. unfold ge. rewrite cmp_add_zero. reflexivity. Qed.

(** The window [0, end] keeps every row once the last timestamp is at most
    [end_ts] as [filter_interval] computes it. *)
Lemma full_window_keeps_all self end_sec r0 rest :
  getData self = r0 :: rest ->
  nondecreasing (map timestamp (getData self)) = true ->
  le (last (map timestamp rest) (timestamp r0))
     (add (timestamp r0) end_sec) = true ->
  filter_interval self (of_int 0) end_sec = Ok (getData self).
Proof.
  intros Edf Hsorted Hend.
  rewrite (filter_interval_unfold self r0 rest _ _ Edf), Edf. f_equal.
  rewrite Edf in Hsorted. cbn [map] in Hsorted.
  apply filter_all. intros r Hr.
  destruct (nondecreasing_bounds _ _ Hsorted (le_refl_l _ _ Hend)
              (timestamp r) (in_map timestamp _ _ Hr)) as [Hlo Hhi].
  apply andb_true_iff. split.
  - rewrite ge_add_zero. exact Hlo.
  - apply le_trans with (last (map timestamp rest) (timestamp r0));
      assumption.
Qed.

(** A window whose computed start lies above its computed end keeps no
    row. *)
Lemma inverted_window_keeps_none self a b r0 rest :
  getData self = r0 :: rest ->
  gt (add (timestamp r0) a) (add (timestamp r0) b) = true ->
  filter_interval self a b = Ok [].
Proof.
  intros Edf Hgt.
  rewrite (filter_interval_unfold self r0 rest a b Edf). f_equal.
  apply filter_none. intros r _.
  apply andb_false_iff.
  destruct (ge (timestamp r) (add (timestamp r0) a)) eqn:Hlo;
    [|left; reflexivity].
  right. rewrite ge_le in Hlo.
  destruct (le (timestamp r) (add (timestamp r0) b)) eqn:Hhi; [|reflexivity].
  pose proof (le_trans _ _ _ Hlo Hhi) as Hle.
  rewrite (le_not_gt _ _ Hle) in Hgt. discriminate Hgt.
Qed.
End Ordered.

(** ** Exact arithmetic *)

Section Exact.
#[local] Open Scope Qc_scope.

Implicit Types (a b c t : Qc) (self : BodyTracking Qc).

Lemma le_exact a b : le a b = true <-> a <= b.
Proof.
  unfold le; cbn [cmp Qc_num]. rewrite Qcle_alt.
  destruct (a ?= b); split; congruence.
Qed.

Lemma ge_exact a b : ge a b = true <-> b <= a.
Proof.
  unfold ge; cbn [cmp Qc_num]. rewrite (Qcge_alt a b).
  destruct (a ?= b); split; congruence.
Qed.

Lemma gt_exact a b : gt a b = true <-> b < a.
Proof.
  unfold gt; cbn [cmp Qc_num]. rewrite (Qcgt_alt a b).
  destruct (a ?= b); split; congruence.
Qed.

Lemma of_int_nonzero (k : Z) : k <> 0%Z -> of_int k <> 0.
Proof.
  intros Hk E. cbn [of_int Qc_num] in E.
  apply Q2Qc_eq_iff in E. apply Hk.
  unfold Qeq in E. simpl in E. lia.
Qed.

Lemma add_le_cancel_l t a b : t + a <= t + b -> a <= b.
Proof.
  intro Hle.
  pose proof (Qcplus_le_compat (- t) (- t) (t + a) (t + b)
                (Qcle_refl _) Hle) as Hc.
  replace (- t + (t + a)) with a in Hc by ring.
  replace (- t + (t + b)) with b in Hc by ring.
  exact Hc.
Qed.

#[export] Instance Qc_lawful : LawfulNum Qc.
Proof.
  split.
  - intros x y z Hxy Hyz. apply le_exact in Hxy, Hyz. apply le_exact.
    apply Qcle_trans with y; assumption.
  - intros x y _. apply le_exact. apply Qcle_refl.
  - intros x y. unfold ge, le; cbn [cmp Qc_num].
    change (x ?= y) with (this x ?= this y)%Q.
    change (y ?= x) with (this y ?= this x)%Q.
    rewrite <- (Qcompare_antisym (this x) (this y)).
    destruct (this x ?= this y)%Q; reflexivity.
  - intros x y. cbn [cmp add of_int Qc_num].
    change (Q2Qc (inject_Z 0)) with 0. rewrite Qcplus_0_r. reflexivity.
Qed.

(** With exact sums, [end >= last - first] puts the last timestamp at or
    below [first + end]. *)
Lemma exact_window_reaches_last t0 tn end_sec :
  ge end_sec (sub tn t0) = true -> le tn (add t0 end_sec) = true.
Proof.
  intro Hend. apply ge_exact in Hend. apply le_exact.
  cbn [sub add Qc_num] in *.
  pose proof (Qcplus_le_compat _ _ _ _ (Qcle_refl t0) Hend) as Hsum.
  replace (t0 + (tn - t0)) with tn in Hsum by ring.
  exact Hsum.
Qed.

(** With exact sums, [a > b] puts [first + a] above [first + b]. *)
Lemma exact_offsets_keep_order t0 a b :
  gt a b = true -> gt (add t0 a) (add t0 b) = true.
Proof.
  intro Hgt. apply gt_exact in Hgt. apply gt_exact. cbn [add Qc_num].
  apply Qcnot_le_lt. intro Hle.
  apply (Qclt_not_le _ _ Hgt). apply (add_le_cancel_l t0). exact Hle.
Qed.

Lemma exact_division_inverts (total : Qc) (k : Z) :
  k <> 0%Z -> mul (div total (of_int k)) (of_int k) = total.
Proof.
  intro Hk. cbn [mul div Qc_num].
  rewrite Qcmult_comm. apply Qcmult_div_r.
  apply of_int_nonzero. exact Hk.
Qed.
End Exact.

(** ** binary64 *)

Ltac order_cases :=
  repeat match goal with
  | H : context [Z.compare ?a ?b] |- _ =>
      destruct (Z.compare_spec a b); simpl in H
  | H : context [Pos.compare_cont Eq ?a ?b] |- _ =>
      change (Pos.compare_cont Eq a b) with (Pos.compare a b) in H;
      destruct (Pos.compare_spec a b); simpl in H
  | |- context [Z.compare ?a ?b] =>
      destruct (Z.compare_spec a b); simpl
  | |- context [Pos.compare_cont Eq ?a ?b] =>
      change (Pos.compare_cont Eq a b) with (Pos.compare a b);
      destruct (Pos.compare_spec a b); simpl
  end.

Lemma float_cmp_spec (a b : float) :
  float_cmp a b = SFcompare (Prim2SF a) (Prim2SF b).
Proof.
  unfold float_cmp. rewrite compare_spec.
  destruct (SFcompare (Prim2SF a) (Prim2SF b)) as [[]|]; reflexivity.
Qed.

Lemma SFcompare_antisym (x y : spec_float) :
  SFcompare y x = option_map CompOpp (SFcompare x y).
Proof.
  destruct x as [sx|sx| |sx mx ex], y as [sy|sy| |sy my ey]; simpl;
    try (destruct sx); try (destruct sy); try reflexivity;
    rewrite (Z.compare_antisym ex ey);
    destruct (ex ?= ey)%Z; simpl; try reflexivity;
    change (Pos.compare_cont Eq my mx) with (Pos.compare my mx);
    change (Pos.compare_cont Eq mx my) with (Pos.compare mx my);
    rewrite (Pos.compare_antisym mx my);
    try rewrite CompOpp_involutive; reflexivity.
Qed.

Lemma sf_le_trans (x y z : spec_float) :
  sf_le x y = true -> sf_le y z = true -> sf_le x z = true.
Proof.
  unfold sf_le.
  destruct x as [sx|sx| |sx mx ex], y as [sy|sy| |sy my ey],
           z as [sz|sz| |sz mz ez]; simpl;
    try (destruct sx); try (destruct sy); try (destruct sz); simpl;
    try reflexivity; try discriminate; intros Hxy Hyz;
    order_cases; subst; try reflexivity; try discriminate; try lia.
Qed.

Lemma sf_le_refl_l (x y : spec_float) : sf_le x y = true -> sf_le x x = true.
Proof.
  unfold sf_le.
  destruct x as [sx|sx| |sx mx ex]; simpl; try (destruct sx); simpl;
    try reflexivity; try (destruct y; discriminate);
    intros _; rewrite Z.compare_refl;
    change (Pos.compare_cont Eq mx mx) with (Pos.compare mx mx);
    rewrite Pos.compare_refl; reflexivity.
Qed.

Lemma SFcompare_add_zero (x y : spec_float) :
  SFcompare y (SF64add x (S754_zero false)) = SFcompare y x.
Proof.
  destruct x as [sx|sx| |sx mx ex]; try reflexivity.
  destruct sx; destruct y as [sy|sy| |sy my ey]; reflexivity.
Qed.

Lemma float_le_spec (a b : float) :
  le a b = sf_le (Prim2SF a) (Prim2SF b).
Proof. unfold le, sf_le. cbn [cmp float_num]. rewrite float_cmp_spec. reflexivity. Qed.

#[export] Instance float_lawful : LawfulNum float.
Proof.
  split.
  - intros x y z. rewrite !float_le_spec. apply sf_le_trans.
  - intros x y. rewrite !float_le_spec. apply sf_le_refl_l.
  - intros x y. unfold ge, le. cbn [cmp float_num].
    rewrite !float_cmp_spec, (SFcompare_antisym (Prim2SF x) (Prim2SF y)).
    destruct (SFcompare (Prim2SF x) (Prim2SF y)) as [[]|]; reflexivity.
  - intros x y. cbn [cmp add of_int float_num].
    rewrite !float_cmp_spec, add_spec.
    change (Prim2SF (float_of_int 0)) with (S754_zero false).
    apply SFcompare_add_zero.
Qed.

(** ** Rounding in binary64 *)

Lemma fexp_eq (e : Z) : fexp prec emax e = Z.max (e - 53) (-1074).
Proof. reflexivity. Qed.

Lemma pow2_pos (k : Z) : 0 <= k -> 0 < 2 ^ k.
Proof. intro. apply Z.pow_pos_nonneg; lia. Qed.

Lemma pow2_add (a b : Z) : 0 <= a -> 0 <= b -> 2 ^ (a + b) = 2 ^ a * 2 ^ b.
Proof. intros. apply Z.pow_add_r; assumption. Qed.

Lemma pow2_le (a b : Z) : 0 <= a <= b -> 2 ^ a <= 2 ^ b.
Proof. intro. apply Z.pow_le_mono_r; lia. Qed.

Lemma pow2_lt (a b : Z) : 0 <= a < b -> 2 ^ a < 2 ^ b.
Proof. intro. apply Z.pow_lt_mono_r; lia. Qed.

Lemma digits2_size (m : positive) : digits2_pos m = Pos.size m.
Proof. induction m; simpl; congruence. Qed.

Lemma digits_bounds (m : positive) :
  2 ^ (Z.pos (digits2_pos m) - 1) <= Z.pos m < 2 ^ Z.pos (digits2_pos m).
Proof.
  rewrite digits2_size.
  pose proof (Pos.size_gt m) as Hgt. pose proof (Pos.size_le m) as Hle.
  apply Pos2Z.pos_lt_pos in Hgt. apply Pos2Z.pos_le_pos in Hle.
  rewrite Pos2Z.inj_pow in Hgt, Hle.
  split; [|exact Hgt].
  replace (Z.pos (Pos.size m)) with (1 + (Z.pos (Pos.size m) - 1)) in Hle by lia.
  rewrite pow2_add in Hle by lia. change (2 ^ 1) with 2 in Hle.
  change (Z.pos m~0) with (2 * Z.pos m) in Hle. lia.
Qed.

Lemma digits_unique (m : positive) (k : Z) :
  2 ^ (k - 1) <= Z.pos m < 2 ^ k -> Z.pos (digits2_pos m) = k.
Proof.
  intros [Hlo Hhi]. pose proof (digits_bounds m) as [Dlo Dhi].
  set (d := Z.pos (digits2_pos m)) in *.
  assert (Hd : 1 <= d) by (unfold d; lia).
  destruct (Z.lt_trichotomy d k) as [Hlt | [Heq | Hgt]]; [|exact Heq|].
  - pose proof (pow2_le d (k - 1) ltac:(lia)). lia.
  - destruct (Z.le_gt_cases 0 k) as [Hk | Hk].
    + pose proof (pow2_le k (d - 1) ltac:(lia)). lia.
    + rewrite (Z.pow_neg_r 2 k) in Hhi by lia. lia.
Qed.

(** What the validity of a finite number says. *)
Lemma canonical_facts (m : positive) (e : Z) :
  canonical_mantissa prec emax m e = true ->
  -1074 <= e /\ Z.pos (digits2_pos m) <= 53 /\
  (-1074 < e -> Z.pos (digits2_pos m) = 53).
Proof.
  unfold canonical_mantissa. rewrite fexp_eq. intro Hc.
  apply Z.eqb_eq in Hc. lia.
Qed.

Lemma canonical_value (m : positive) (e : Z) :
  canonical_mantissa prec emax m e = true ->
  Z.pos m * 2 ^ (e + 1074) < 2 ^ (53 + (e + 1074)) /\
  (-1074 < e -> 2 ^ (52 + (e + 1074)) <= Z.pos m * 2 ^ (e + 1074)).
Proof.
  intro Hc. destruct (canonical_facts m e Hc) as [He [Hd Hn]].
  pose proof (digits_bounds m) as [Dlo Dhi].
  pose proof (pow2_pos (e + 1074) ltac:(lia)) as Hp.
  split.
  - rewrite (pow2_add 53 (e + 1074)) by lia.
    pose proof (pow2_le (Z.pos (digits2_pos m)) 53 ltac:(lia)) as H53.
    apply Z.mul_lt_mono_pos_r; [exact Hp|]. lia.
  - intro Hlt. rewrite (Hn Hlt) in Dlo. change (53 - 1) with 52 in Dlo.
    rewrite (pow2_add 52 (e + 1074)) by lia.
    apply Z.mul_le_mono_nonneg_r; [lia|exact Dlo].
Qed.

Lemma valid_finite (s : bool) (m : positive) (e : Z) :
  valid_binary (S754_finite s m e) = true ->
  canonical_mantissa prec emax m e = true /\ e <= 971.
Proof.
  simpl. unfold bounded. intro Hv. apply andb_true_iff in Hv as [Hc He].
  split; [exact Hc|]. apply Z.leb_le in He. exact He.
Qed.

(** The order of two valid finite numbers is the order of their values. *)
Lemma sf_le_of_values (x y : spec_float) :
  valid_binary x = true -> valid_binary y = true ->
  sf_finite x = true -> sf_finite y = true ->
  SFZ x <= SFZ y -> sf_le x y = true.
Proof.
  intros Vx Vy Fx Fy Hle. unfold sf_le.
  destruct x as [sx|sx| |sx mx ex]; try discriminate Fx;
    destruct y as [sy|sy| |sy my ey]; try discriminate Fy;
    cbn [SFZ] in Hle; cbn [SFcompare].
  - reflexivity.
  - destruct (valid_finite _ _ _ Vy) as [Cy _].
    destruct (canonical_facts _ _ Cy) as [Hey _].
    pose proof (pow2_pos (ey + 1074) ltac:(lia)) as Py.
    pose proof (Z.mul_pos_pos _ _ (Pos2Z.is_pos my) Py) as Qy.
    destruct sy; cbn [cond_Zopp] in Hle; [lia | reflexivity].
  - destruct (valid_finite _ _ _ Vx) as [Cx _].
    destruct (canonical_facts _ _ Cx) as [Hex _].
    pose proof (pow2_pos (ex + 1074) ltac:(lia)) as Px.
    pose proof (Z.mul_pos_pos _ _ (Pos2Z.is_pos mx) Px) as Qx.
    destruct sx; cbn [cond_Zopp] in Hle; [reflexivity | lia].
  - destruct (valid_finite _ _ _ Vx) as [Cx _].
    destruct (valid_finite _ _ _ Vy) as [Cy _].
    destruct (canonical_facts _ _ Cx) as [Hex _].
    destruct (canonical_facts _ _ Cy) as [Hey _].
    destruct (canonical_value _ _ Cx) as [Xhi Xlo].
    destruct (canonical_value _ _ Cy) as [Yhi Ylo].
    pose proof (pow2_pos (ex + 1074) ltac:(lia)) as Px.
    pose proof (pow2_pos (ey + 1074) ltac:(lia)) as Py.
    pose proof (Z.mul_pos_pos _ _ (Pos2Z.is_pos mx) Px) as Qx.
    pose proof (Z.mul_pos_pos _ _ (Pos2Z.is_pos my) Py) as Qy.
    change (Pos.compare_cont Eq mx my) with (Pos.compare mx my).
    destruct sx, sy; cbn [cond_Zopp] in Hle.
    + destruct (Z.compare_spec ex ey) as [E | E | E].
      * subst ey. destruct (Pos.compare_spec mx my) as [E' | E' | E'];
          simpl; try reflexivity.
        apply Pos2Z.pos_lt_pos in E'. nia.
      * exfalso.
        pose proof (pow2_le (53 + (ex + 1074)) (52 + (ey + 1074)) ltac:(lia)).
        specialize (Ylo ltac:(lia)). lia.
      * reflexivity.
    + reflexivity.
    + exfalso. lia.
    + destruct (Z.compare_spec ex ey) as [E | E | E].
      * subst ey. destruct (Pos.compare_spec mx my) as [E' | E' | E'];
          simpl; try reflexivity.
        apply Pos2Z.pos_lt_pos in E'. nia.
      * reflexivity.
      * exfalso.
        pose proof (pow2_le (53 + (ey + 1074)) (52 + (ex + 1074)) ltac:(lia)).
        specialize (Xlo ltac:(lia)). lia.
Qed.

(** *** Shifts *)

Lemma iter_xO (m d : positive) : Z.pos (Pos.iter xO m d) = Z.pos m * 2 ^ Z.pos d.
Proof.
  induction d as [|d IH] using Pos.peano_ind.
  - change (2 ^ 1) with 2. rewrite Z.mul_comm. reflexivity.
  - rewrite Pos.iter_succ, Pos2Z.inj_succ, Z.pow_succ_r by lia.
    rewrite Pos2Z.inj_xO, IH. ring.
Qed.

Lemma shl_align_value (m : positive) (e e' : Z) :
  e' <= e ->
  Z.pos (fst (shl_align m e e')) = Z.pos m * 2 ^ (e - e') /\
  snd (shl_align m e e') = e'.
Proof.
  intro Hle. unfold shl_align.
  destruct (e' - e) as [|d|d] eqn:E; cbn [fst snd].
  - replace (e - e') with 0 by lia. split; [rewrite Z.mul_1_r; reflexivity | lia].
  - lia.
  - rewrite iter_xO. replace (e - e') with (Z.pos d) by lia.
    split; reflexivity.
Qed.

Lemma iter_pos_eq {T : Type} (f : T -> T) (n : positive) (x : T) :
  iter_pos f n x = Pos.iter f x n.
Proof.
  revert x. induction n as [n IH|n IH|]; intro x; simpl.
  - rewrite !IH, !Pos.iter_swap. reflexivity.
  - rewrite !IH. reflexivity.
  - reflexivity.
Qed.

Lemma shr_1_spec (mrs : shr_record) :
  0 <= shr_m mrs ->
  shr_m (shr_1 mrs) = shr_m mrs / 2 /\
  (shr_r mrs = false -> shr_s mrs = false -> (2 | shr_m mrs) ->
   shr_r (shr_1 mrs) = false /\ shr_s (shr_1 mrs) = false).
Proof.
  destruct mrs as [m r s]. cbn [shr_m shr_r shr_s]. intro Hm.
  destruct m as [|p|p]; [| |lia].
  - split; [reflexivity|]. intros -> -> _. split; reflexivity.
  - destruct p as [p|p|]; cbn [shr_1 shr_m shr_r shr_s].
    + split.
      * rewrite <- Z.div2_div. reflexivity.
      * intros _ _ [c Hc]. lia.
    + split.
      * rewrite <- Z.div2_div. reflexivity.
      * intros -> -> _. split; reflexivity.
    + split; [reflexivity|]. intros _ _ [c Hc]. lia.
Qed.

Lemma iter_shr (n : positive) (mrs : shr_record) :
  0 <= shr_m mrs ->
  shr_m (Pos.iter shr_1 mrs n) = shr_m mrs / 2 ^ Z.pos n /\
  (shr_r mrs = false -> shr_s mrs = false -> (2 ^ Z.pos n | shr_m mrs) ->
   shr_r (Pos.iter shr_1 mrs n) = false /\
   shr_s (Pos.iter shr_1 mrs n) = false).
Proof.
  intro Hm. induction n as [|n IH] using Pos.peano_ind.
  - change (Pos.iter shr_1 mrs 1) with (shr_1 mrs). change (2 ^ 1) with 2.
    apply shr_1_spec. exact Hm.
  - rewrite Pos.iter_succ, Pos2Z.inj_succ, Z.pow_succ_r by lia.
    destruct IH as [IHm IHx].
    pose proof (pow2_pos (Z.pos n) ltac:(lia)) as Hp.
    assert (Hq : 0 <= shr_m (Pos.iter shr_1 mrs n)).
    { rewrite IHm. apply Z.div_pos; lia. }
    destruct (shr_1_spec _ Hq) as [Sm Sx].
    split.
    + rewrite Sm, IHm, Z.div_div by lia. f_equal. ring.
    + intros Hr Hs [c Hc].
      assert (Hdiv : (2 ^ Z.pos n | shr_m mrs)).
      { exists (c * 2). rewrite Hc. ring. }
      destruct (IHx Hr Hs Hdiv) as [Hr' Hs'].
      apply Sx; [exact Hr' | exact Hs' |].
      rewrite IHm, Hc. exists c.
      replace (c * (2 * 2 ^ Z.pos n)) with (c * 2 * 2 ^ Z.pos n) by ring.
      rewrite Z.div_mul by lia. reflexivity.
Qed.

Lemma round_nearest_even_bounds (m : Z) (l : location) :
  m <= round_nearest_even m l <= m + 1.
Proof.
  destruct l as [|[]]; simpl; try lia. destruct (Z.even m); lia.
Qed.

(** *** The neighbours of a number in the format *)

Lemma quotient_bounds (m : positive) :
  53 < Z.pos (digits2_pos m) ->
  2 ^ 52 <= Z.pos m / 2 ^ (Z.pos (digits2_pos m) - 53) < 2 ^ 53.
Proof.
  intro Hd. pose proof (digits_bounds m) as [Dlo Dhi].
  set (d := Z.pos (digits2_pos m)) in *.
  pose proof (pow2_pos (d - 53) ltac:(lia)) as Hp.
  split.
  - apply Z.div_le_lower_bound; [lia|].
    rewrite <- pow2_add by lia. replace (d - 53 + 52) with (d - 1) by lia.
    exact Dlo.
  - apply Z.div_lt_upper_bound; [lia|].
    rewrite <- pow2_add by lia. replace (d - 53 + 53) with d by lia.
    exact Dhi.
Qed.

Lemma no_extra_digits (m : positive) (e : Z) :
  Z.pos (digits2_pos m) <= 53 ->
  round_down m e = Z.pos m * 2 ^ (e + 1074) /\
  round_up m e = Z.pos m * 2 ^ (e + 1074).
Proof.
  intro Hd. unfold round_up, round_down, extra_digits.
  rewrite Z.max_l by lia. change (2 ^ 0) with 1.
  rewrite Z.div_1_r, Z.mod_1_r, Z.add_0_r. split; reflexivity.
Qed.

Lemma round_down_le_up (m : positive) (e : Z) :
  -1074 <= e -> round_down m e <= round_up m e.
Proof.
  intro He. unfold round_up. destruct (_ =? 0); [lia|].
  pose proof (pow2_pos (e + extra_digits m + 1074)
                ltac:(unfold extra_digits; lia)). lia.
Qed.

Section Neighbours.
Variables (m : positive) (e : Z) (mw : positive) (ew : Z).
Hypothesis He : -1074 <= e.
Hypothesis Hw : canonical_mantissa prec emax mw ew = true.

Let v := Z.pos m * 2 ^ (e + 1074).
Let w := Z.pos mw * 2 ^ (ew + 1074).

Lemma neighbours_cases :
  53 < Z.pos (digits2_pos m) ->
  exists q rho c u,
    0 < c /\ u = 2 ^ (Z.pos (digits2_pos m) - 53) * c /\
    v = q * u + rho * c /\ 0 <= rho < 2 ^ (Z.pos (digits2_pos m) - 53) /\
    2 ^ 52 <= q /\
    round_down m e = q * u /\
    round_up m e = (if rho =? 0 then q * u else q * u + u) /\
    ((exists k, w = k * u) \/ w < 2 ^ 52 * u).
Proof.
  intro Hd. set (d := Z.pos (digits2_pos m)) in *.
  set (n := d - 53).
  pose proof (pow2_pos n ltac:(lia)) as Hn.
  pose proof (pow2_pos (e + 1074) ltac:(lia)) as Hc.
  pose proof (Z.div_mod (Z.pos m) (2 ^ n) ltac:(lia)) as Hdm.
  pose proof (Z.mod_pos_bound (Z.pos m) (2 ^ n) Hn) as Hrho.
  pose proof (quotient_bounds m Hd) as [Hq _]. fold d n in Hq.
  assert (Hx : extra_digits m = n) by (unfold extra_digits; fold d; lia).
  exists (Z.pos m / 2 ^ n), (Z.pos m mod 2 ^ n), (2 ^ (e + 1074)),
         (2 ^ n * 2 ^ (e + 1074)).
  split; [exact Hc|]. split; [reflexivity|].
  split; [unfold v; rewrite Hdm at 1; ring|].
  split; [exact Hrho|]. split; [exact Hq|].
  assert (Hu : 2 ^ (e + n + 1074) = 2 ^ n * 2 ^ (e + 1074)).
  { replace (e + n + 1074) with (n + (e + 1074)) by lia.
    apply pow2_add; lia. }
  split; [unfold round_down; rewrite Hx, Hu; reflexivity|].
  split; [unfold round_up, round_down; rewrite Hx, Hu; reflexivity|].
  destruct (canonical_facts _ _ Hw) as [Hew [Hdw _]].
  destruct (canonical_value _ _ Hw) as [Whi _]. fold w in Whi.
  destruct (Z.le_gt_cases (e + n) ew) as [Hge | Hlt].
  - left. exists (Z.pos mw * 2 ^ (ew - (e + n))). unfold w.
    rewrite <- Hu.
    replace (ew + 1074) with ((ew - (e + n)) + (e + n + 1074)) by lia.
    rewrite pow2_add by lia. ring.
  - right. rewrite <- Hu, <- pow2_add by lia.
    pose proof (pow2_le (53 + (ew + 1074)) (52 + (e + n + 1074)) ltac:(lia)).
    lia.
Qed.

(** No number of the format lies between [round_down] and [v], nor between
    [v] and [round_up]. *)
Lemma below_round_down : w <= v -> w <= round_down m e.
Proof.
  intro Hle.
  destruct (Z.le_gt_cases (Z.pos (digits2_pos m)) 53) as [Hd | Hd].
  - destruct (no_extra_digits m e Hd) as [-> _]. exact Hle.
  - destruct (neighbours_cases Hd)
      as [q [rho [c [u [Hc [Hu [Hv [Hrho [Hq [-> [_ Hcase]]]]]]]]]]].
    assert (Hupos : 0 < u) by (subst u; nia).
    assert (Hrc : rho * c < u) by (subst u; nia).
    destruct Hcase as [[k Hk] | Hsmall]; [|nia].
    rewrite Hk in Hle |- *.
    assert (k < q + 1) by nia. nia.
Qed.

Lemma above_round_up : v <= w -> round_up m e <= w.
Proof.
  intro Hle.
  destruct (Z.le_gt_cases (Z.pos (digits2_pos m)) 53) as [Hd | Hd].
  - destruct (no_extra_digits m e Hd) as [_ ->]. exact Hle.
  - destruct (neighbours_cases Hd)
      as [q [rho [c [u [Hc [Hu [Hv [Hrho [Hq [_ [-> Hcase]]]]]]]]]]].
    assert (Hupos : 0 < u) by (subst u; nia).
    assert (Hrc : 0 <= rho * c) by nia.
    destruct Hcase as [[k Hk] | Hsmall]; [|nia].
    rewrite Hk in Hle |- *.
    destruct (Z.eqb_spec rho 0) as [-> | Hnz]; [nia|].
    assert (0 < rho * c) by nia.
    assert (q < k) by nia. nia.
Qed.

End Neighbours.

(** *** What rounding returns *)

Lemma shr_fexp_exact (mz : positive) (ez : Z) :
  fexp prec emax (Z.pos (digits2_pos mz) + ez) <= ez ->
  shr_fexp prec emax (Z.pos mz) ez loc_Exact
    = ({| shr_m := Z.pos mz; shr_r := false; shr_s := false |}, ez).
Proof.
  intro Hle. unfold shr_fexp, shr. cbn [Zdigits2 shr_record_of_loc].
  destruct (fexp prec emax (Z.pos (digits2_pos mz) + ez) - ez) eqn:E;
    try reflexivity.
  lia.
Qed.

Lemma binary_round_aux_last (s : bool) (mx : Z) (ex : Z) (lx : location) :
  binary_round_aux prec emax s mx ex lx =
    last_step s
      (round_nearest_even (shr_m (fst (shr_fexp prec emax mx ex lx)))
         (loc_of_shr_record (fst (shr_fexp prec emax mx ex lx))))
      (snd (shr_fexp prec emax mx ex lx)).
Proof.
  unfold binary_round_aux, last_step.
  destruct (shr_fexp prec emax mx ex lx) as [mrs' e']. reflexivity.
Qed.

Lemma last_step_exact (s : bool) (m2 : positive) (t : Z) :
  fexp prec emax (Z.pos (digits2_pos m2) + t) <= t ->
  last_step s (Z.pos m2) t =
    if t <=? 971 then S754_finite s m2 t else S754_infinity s.
Proof.
  intro Hle. unfold last_step. rewrite (shr_fexp_exact m2 t Hle).
  reflexivity.
Qed.

Lemma last_step_value (s : bool) (m2 : positive) (t : Z) :
  -1074 <= t -> 2 ^ 52 <= Z.pos m2 <= 2 ^ 53 ->
  (last_step s (Z.pos m2) t = S754_infinity s /\
   2 ^ 2098 <= Z.pos m2 * 2 ^ (t + 1074)) \/
  (exists m' e',
     last_step s (Z.pos m2) t = S754_finite s m' e' /\
     Z.pos m' * 2 ^ (e' + 1074) = Z.pos m2 * 2 ^ (t + 1074)).
Proof.
  intros Ht [Hlo Hhi].
  pose proof (pow2_pos (t + 1074) ltac:(lia)) as Hp.
  destruct (Z.eq_dec (Z.pos m2) (2 ^ 53)) as [Htop | Hnot].
  - assert (E : m2 = 9007199254740992%positive).
    { change (2 ^ 53) with (Z.pos 9007199254740992) in Htop.
      injection Htop as ->. reflexivity. }
    subst m2. unfold last_step, shr_fexp, shr.
    cbn [Zdigits2 shr_record_of_loc].
    change (Z.pos (digits2_pos 9007199254740992)) with 54.
    rewrite fexp_eq.
    replace (Z.max (54 + t - 53) (-1074) - t) with 1 by lia.
    cbn [iter_pos shr_1 shr_m].
    change (emax - prec) with 971.
    destruct (Z.leb_spec (t + 1) 971) as [Hfit | Hover].
    + right. exists 4503599627370496%positive, (t + 1). split; [reflexivity|].
      replace (t + 1 + 1074) with (1 + (t + 1074)) by lia.
      rewrite pow2_add by lia. change (2 ^ 1) with 2. lia.
    + left. split; [reflexivity|].
      pose proof (pow2_le 2098 (53 + (t + 1074)) ltac:(lia)) as Hbig.
      rewrite pow2_add in Hbig by lia.
      change (Z.pos 9007199254740992) with (2 ^ 53). exact Hbig.
  - assert (Hd : Z.pos (digits2_pos m2) = 53).
    { apply digits_unique. change (53 - 1) with 52. lia. }
    rewrite last_step_exact by (rewrite Hd, fexp_eq; lia).
    destruct (Z.leb_spec t 971) as [Hfit | Hover].
    + right. exists m2, t. split; reflexivity.
    + left. split; [reflexivity|].
      pose proof (pow2_le 2098 (52 + (t + 1074)) ltac:(lia)) as Hbig.
      rewrite pow2_add in Hbig by lia. nia.
Qed.

(** Rounding [m * 2^e] gives a number between its two neighbours in the
    format, or overflows when the value reached is at least [2^1024]. *)
Lemma binary_round_value (s : bool) (m : positive) (e : Z) :
  -1074 <= e ->
  exists U, round_down m e <= U <= round_up m e /\
    ((binary_round prec emax s m e = S754_infinity s /\ 2 ^ 2098 <= U) \/
     (exists m' e',
        binary_round prec emax s m e = S754_finite s m' e' /\
        Z.pos m' * 2 ^ (e' + 1074) = U)).
Proof.
  intro He. pose proof (digits_bounds m) as [Dlo Dhi].
  set (d := Z.pos (digits2_pos m)) in *.
  assert (Hd1 : 1 <= d) by (unfold d; lia).
  pose proof (pow2_pos (e + 1074) ltac:(lia)) as Hc.
  unfold binary_round. fold d. rewrite fexp_eq.
  destruct (Z.le_gt_cases d 53) as [Hd | Hd].
  - (* no digit is lost *)
    set (t := Z.max (d + e - 53) (-1074)).
    assert (Ht : -1074 <= t <= e) by (unfold t; lia).
    destruct (shl_align_value m e t ltac:(lia)) as [Hmz Hez].
    destruct (shl_align m e t) as [mz ez]. cbn [fst snd] in Hmz, Hez.
    subst ez.
    pose proof (pow2_pos (e - t) ltac:(lia)) as Hs.
    assert (Hv : Z.pos mz * 2 ^ (t + 1074) = Z.pos m * 2 ^ (e + 1074)).
    { rewrite Hmz. replace (e + 1074) with ((e - t) + (t + 1074)) by lia.
      rewrite (pow2_add (e - t) (t + 1074)) by lia. ring. }
    assert (Hdz : Z.pos (digits2_pos mz) = d + (e - t)).
    { apply digits_unique. rewrite Hmz. split.
      - replace (d + (e - t) - 1) with ((d - 1) + (e - t)) by lia.
        rewrite pow2_add by lia. apply Z.mul_le_mono_nonneg_r; lia.
      - rewrite pow2_add by lia. apply Z.mul_lt_mono_pos_r; lia. }
    destruct (no_extra_digits m e Hd) as [Hdown Hup].
    exists (Z.pos m * 2 ^ (e + 1074)).
    split; [rewrite Hdown, Hup; lia|].
    rewrite binary_round_aux_last.
    rewrite shr_fexp_exact by (rewrite Hdz, fexp_eq; lia).
    cbn [fst snd shr_m loc_of_shr_record round_nearest_even].
    rewrite last_step_exact by (rewrite Hdz, fexp_eq; lia).
    destruct (Z.leb_spec t 971) as [Hfit | Hover].
    + right. exists mz, t. split; [reflexivity | exact Hv].
    + left. split; [reflexivity|].
      assert (Et : t = d + e - 53) by (unfold t; lia).
      pose proof (pow2_le 2098 ((d - 1) + (e + 1074)) ltac:(lia)) as Hbig.
      rewrite pow2_add in Hbig by lia.
      assert (2 ^ (d - 1) * 2 ^ (e + 1074) <= Z.pos m * 2 ^ (e + 1074))
        by (apply Z.mul_le_mono_nonneg_r; lia).
      lia.
  - (* [d - 53] digits are shifted out *)
    set (n := d - 53).
    replace (Z.max (d + e - 53) (-1074)) with (e + n) by (unfold n; lia).
    assert (Hal : shl_align m e (e + n) = (m, e)).
    { unfold shl_align. destruct (e + n - e) eqn:E; try reflexivity.
      unfold n in E. lia. }
    rewrite Hal, binary_round_aux_last.
    assert (Hx : extra_digits m = n) by (unfold extra_digits; fold d; lia).
    pose proof (quotient_bounds m Hd) as [Hqlo Hqhi]. fold d n in Hqlo, Hqhi.
    assert (Hsh : shr_fexp prec emax (Z.pos m) e loc_Exact =
                  (Pos.iter shr_1
                     {| shr_m := Z.pos m; shr_r := false; shr_s := false |}
                     (Z.to_pos n), e + n)).
    { unfold shr_fexp, shr. cbn [Zdigits2 shr_record_of_loc]. fold d.
      rewrite fexp_eq.
      replace (Z.max (d + e - 53) (-1074) - e) with n by (unfold n; lia).
      destruct n as [|p|p] eqn:En; try (unfold n in En; lia).
      rewrite iter_pos_eq. reflexivity. }
    rewrite Hsh. cbn [fst snd].
    destruct (iter_shr (Z.to_pos n)
                {| shr_m := Z.pos m; shr_r := false; shr_s := false |}
                ltac:(cbn [shr_m]; lia)) as [Hq Hexact].
    cbn [shr_m shr_r shr_s] in Hq, Hexact.
    rewrite Z2Pos.id in Hq, Hexact by (unfold n; lia).
    set (mrs := Pos.iter shr_1 _ _) in *.
    pose proof (round_nearest_even_bounds (shr_m mrs) (loc_of_shr_record mrs))
      as Hrne.
    set (m2 := round_nearest_even (shr_m mrs) (loc_of_shr_record mrs)) in *.
    rewrite Hq in Hrne.
    assert (Hm2 : round_down m e <= m2 * 2 ^ (e + n + 1074) <= round_up m e).
    { pose proof (pow2_pos (e + n + 1074) ltac:(unfold n; lia)) as Hu.
      unfold round_up, round_down. rewrite Hx.
      destruct (Z.eqb_spec (Z.pos m mod 2 ^ n) 0) as [Hz | Hnz].
      - assert (Hdiv : (2 ^ n | Z.pos m)).
        { apply Z.mod_divide; [lia | exact Hz]. }
        destruct (Hexact eq_refl eq_refl Hdiv) as [Hr Hs].
        assert (Em2 : m2 = Z.pos m / 2 ^ n).
        { unfold m2. rewrite <- Hq. destruct mrs as [mm rr ss].
          cbn [shr_r shr_s] in Hr, Hs. subst rr ss. reflexivity. }
        rewrite Em2. lia.
      - nia. }
    destruct m2 as [|p2|p2] eqn:Em2; try lia.
    destruct (last_step_value s p2 (e + n) ltac:(unfold n; lia) ltac:(lia))
      as [[Hinf Hbig] | [m' [e' [Hfin Hval]]]].
    + exists (Z.pos p2 * 2 ^ (e + n + 1074)). split; [exact Hm2|].
      left. split; assumption.
    + exists (Z.pos p2 * 2 ^ (e + n + 1074)). split; [exact Hm2|].
      right. exists m', e'. split; assumption.
Qed.

Lemma cond_Zopp_mul (s : bool) (a b : Z) :
  cond_Zopp s (a * b) = cond_Zopp s a * b.
Proof. destruct s; cbn [cond_Zopp]; ring. Qed.

Lemma SF2Q_SFZ (x : spec_float) :
  valid_binary x = true ->
  (SF2Q x == inject_Z (SFZ x) * (2 # 1) ^ (-1074))%Q.
Proof.
  intro Vx. destruct x as [s|s| |s m e]; cbn [SF2Q SFZ];
    try (rewrite Qmult_0_l; reflexivity).
  destruct (valid_finite _ _ _ Vx) as [Cx _].
  destruct (canonical_facts _ _ Cx) as [He _].
  rewrite cond_Zopp_mul, inject_Z_mult.
  rewrite (Zpower_Qpower 2 (e + 1074)) by lia.
  change (inject_Z 2) with (2 # 1)%Q.
  rewrite <- Qmult_assoc, <- Qpower_plus by discriminate.
  replace (e + 1074 + -1074) with e by lia. reflexivity.
Qed.

Lemma exact_le_values (x y z : spec_float) :
  valid_binary x = true -> valid_binary y = true -> valid_binary z = true ->
  (SF2Q z - SF2Q x <= SF2Q y)%Q -> SFZ z <= SFZ x + SFZ y.
Proof.
  intros Vx Vy Vz Hle.
  rewrite (SF2Q_SFZ x Vx), (SF2Q_SFZ y Vy), (SF2Q_SFZ z Vz) in Hle.
  assert (Hc : (0 < (2 # 1) ^ (-1074))%Q) by (apply Qpower_0_lt; reflexivity).
  setoid_replace
    (inject_Z (SFZ z) * (2 # 1) ^ (-1074)
     - inject_Z (SFZ x) * (2 # 1) ^ (-1074))%Q
    with (inject_Z (SFZ z - SFZ x) * (2 # 1) ^ (-1074))%Q in Hle
    by (unfold Z.sub; rewrite inject_Z_plus, inject_Z_opp; ring).
  apply Qmult_le_r in Hle; [|exact Hc].
  rewrite <- Zle_Qle in Hle. lia.
Qed.

(** *** Addition does not fall below a number under the exact sum *)

Lemma sf_le_infinity (z : spec_float) :
  sf_finite z = true -> sf_le z (S754_infinity false) = true.
Proof. destruct z as [s|s| |s m e]; try discriminate; reflexivity. Qed.

Lemma binary_normalize_reaches (M ez : Z) (z : spec_float) :
  -1074 <= ez ->
  valid_binary z = true -> sf_finite z = true ->
  valid_binary (binary_normalize prec emax M ez false) = true ->
  SFZ z <= M * 2 ^ (ez + 1074) ->
  sf_le z (binary_normalize prec emax M ez false) = true.
Proof.
  intros Hez Vz Fz Vr Hle.
  pose proof (pow2_pos (ez + 1074) ltac:(lia)) as Hc.
  destruct M as [|p|p]; cbn [binary_normalize] in Vr |- *.
  - apply sf_le_of_values; try assumption; try reflexivity;
      cbn [SFZ]; lia.
  - destruct (binary_round_value false p ez Hez)
      as [U [[Hlo Hhi] [[-> Hbig] | [m' [e' [Hr Hval]]]]]].
    + apply sf_le_infinity. exact Fz.
    + rewrite Hr in Vr |- *.
      apply sf_le_of_values; try assumption; try reflexivity.
      cbn [SFZ cond_Zopp]. rewrite Hval.
      destruct (valid_finite _ _ _ Vr) as [Cr _].
      destruct (canonical_facts _ _ Cr) as [He' _].
      pose proof (pow2_pos (e' + 1074) ltac:(lia)) as Hp'.
      assert (HU : 0 < U) by (rewrite <- Hval; apply Z.mul_pos_pos; lia).
      destruct z as [s|s| |s mz ezz]; try discriminate Fz; cbn [SFZ]; try lia.
      destruct (valid_finite _ _ _ Vz) as [Cz _].
      destruct (canonical_facts _ _ Cz) as [Hezz _].
      pose proof (pow2_pos (ezz + 1074) ltac:(lia)) as Hpz.
      pose proof (Z.mul_pos_pos _ _ (Pos2Z.is_pos mz) Hpz) as Hw.
      destruct s; cbn [cond_Zopp]; [lia|].
      cbn [SFZ cond_Zopp] in Hle.
      pose proof (below_round_down p ez mz ezz Hez Cz Hle). lia.
  - assert (Hneg : SFZ z < 0).
    { pose proof (Z.mul_pos_pos _ _ (Pos2Z.is_pos p) Hc).
      change (Z.neg p) with (- Z.pos p) in Hle. lia. }
    destruct z as [s|s| |s mz ezz]; try discriminate Fz;
      cbn [SFZ] in Hneg, Hle; try lia.
    destruct (valid_finite _ _ _ Vz) as [Cz Hfit].
    destruct (canonical_facts _ _ Cz) as [Hezz _].
    destruct (canonical_value _ _ Cz) as [Whi _].
    pose proof (pow2_pos (ezz + 1074) ltac:(lia)) as Hpz.
    pose proof (Z.mul_pos_pos _ _ (Pos2Z.is_pos mz) Hpz) as Hw.
    destruct s; cbn [cond_Zopp] in Hneg, Hle; [|lia].
    assert (Hvw : Z.pos p * 2 ^ (ez + 1074) <= Z.pos mz * 2 ^ (ezz + 1074)).
    { change (Z.neg p) with (- Z.pos p) in Hle. lia. }
    pose proof (above_round_up p ez mz ezz Hez Cz Hvw) as Hup.
    destruct (binary_round_value true p ez Hez)
      as [U [[Hlo Hhi] [[Hr Hbig] | [m' [e' [Hr Hval]]]]]].
    + exfalso.
      pose proof (pow2_le (53 + (ezz + 1074)) 2098 ltac:(lia)). lia.
    + rewrite Hr in Vr |- *.
      apply sf_le_of_values; try assumption; try reflexivity.
      cbn [SFZ cond_Zopp]. rewrite Hval. lia.
Qed.

Lemma SFadd_reaches (x y z : spec_float) :
  valid_binary x = true -> valid_binary y = true -> valid_binary z = true ->
  sf_finite x = true -> sf_finite z = true ->
  valid_binary (SF64add x y) = true ->
  y = S754_infinity false \/
    (sf_finite y = true /\ SFZ z <= SFZ x + SFZ y) ->
  sf_le z (SF64add x y) = true.
Proof.
  intros Vx Vy Vz Fx Fz Vr [-> | [Fy Hle]].
  - destruct x as [s|s| |s m e]; try discriminate Fx;
      apply sf_le_infinity; exact Fz.
  - unfold SF64add in *.
    destruct x as [sx|sx| |sx mx ex]; try discriminate Fx;
      destruct y as [sy|sy| |sy my ey]; try discriminate Fy.
    + cbn [SFZ] in Hle.
      assert (Hz : forall s, sf_le z (S754_zero s) = true).
      { intro s0. apply sf_le_of_values; try assumption; try reflexivity;
          cbn [SFZ]; lia. }
      destruct sx, sy; apply Hz.
    + cbn [SFadd] in Vr |- *. apply sf_le_of_values; try assumption;
        cbn [SFZ] in Hle |- *; lia.
    + cbn [SFadd] in Vr |- *. apply sf_le_of_values; try assumption;
        cbn [SFZ] in Hle |- *; lia.
    + cbn [SFadd] in Vr |- *.
      destruct (valid_finite _ _ _ Vx) as [Cx _].
      destruct (valid_finite _ _ _ Vy) as [Cy _].
      destruct (canonical_facts _ _ Cx) as [Hex _].
      destruct (canonical_facts _ _ Cy) as [Hey _].
      set (ez := Z.min ex ey) in *.
      destruct (shl_align_value mx ex ez ltac:(unfold ez; lia)) as [Hax _].
      destruct (shl_align_value my ey ez ltac:(unfold ez; lia)) as [Hay _].
      apply binary_normalize_reaches; try assumption; [unfold ez; lia|].
      rewrite Hax, Hay. cbn [SFZ] in Hle.
      replace (ex + 1074) with ((ex - ez) + (ez + 1074)) in Hle by lia.
      replace (ey + 1074) with ((ey - ez) + (ez + 1074)) in Hle by lia.
      rewrite (pow2_add (ex - ez) (ez + 1074)) in Hle by (unfold ez; lia).
      rewrite (pow2_add (ey - ez) (ez + 1074)) in Hle by (unfold ez; lia).
      rewrite Z.mul_add_distr_r, <- !cond_Zopp_mul.
      rewrite !Z.mul_assoc in Hle. exact Hle.
Qed.

Lemma SFcompare_refl (x : spec_float) :
  SFcompare x x = match x with S754_nan => None | _ => Some Eq end.
Proof.
  destruct x as [s|s| |s m e]; cbn [SFcompare]; try (destruct s); try reflexivity;
    rewrite Z.compare_refl;
    change (Pos.compare_cont Eq m m) with (Pos.compare m m);
    rewrite Pos.compare_refl; reflexivity.
Qed.

(** The library's [is_finite] holds of zeros and finite numbers only. *)
Lemma is_finite_spec (x : float) : is_finite x = sf_finite (Prim2SF x).
Proof.
  unfold is_finite, is_nan, is_infinity.
  rewrite !eqb_spec, abs_spec. unfold SFeqb. rewrite SFcompare_refl.
  change (Prim2SF infinity) with (S754_infinity false).
  destruct (Prim2SF x) as [s|s| |s m e]; try (destruct s); reflexivity.
Qed.

Lemma eqb_infinity_spec (x : float) :
  PrimFloat.eqb x infinity = true -> Prim2SF x = S754_infinity false.
Proof.
  rewrite eqb_spec. unfold SFeqb.
  change (Prim2SF infinity) with (S754_infinity false).
  destruct (Prim2SF x) as [s|s| |s m e]; try (destruct s);
    try discriminate; reflexivity.
Qed.

(** In binary64, [first + end_sec] is at or above every finite [last] with
    [last - first <= end_sec] in exact arithmetic: rounding the sum to the
    nearest number of the format cannot pass below [last], which is a
    number of the format under the exact sum. *)
Lemma float_add_reaches (first last end_sec : float) :
  is_finite first = true -> is_finite last = true ->
  exact_ge end_sec last first = true ->
  le last (add first end_sec) = true.
Proof.
  rewrite !is_finite_spec, float_le_spec. unfold exact_ge, float_to_Q.
  rewrite is_finite_spec. cbn [add float_num]. intros Ff Fl Hge.
  pose proof (Prim2SF_valid first) as Vf.
  pose proof (Prim2SF_valid last) as Vl.
  pose proof (Prim2SF_valid end_sec) as Ve.
  pose proof (Prim2SF_valid (first + end_sec)) as Vr.
  rewrite add_spec in Vr |- *.
  apply SFadd_reaches; try assumption.
  destruct (sf_finite (Prim2SF end_sec)) eqn:Fe.
  - right. split; [reflexivity|].
    apply Qle_bool_iff in Hge. apply exact_le_values; assumption.
  - left. apply eqb_infinity_spec. exact Hge.
Qed.

(** ** Average per frame *)

(** C2 (as amended).  For every table with at least two rows,
    [movement_per_frame(total)] is the quotient [total / (row_count - 1)]
    in the arithmetic of [total]; when that arithmetic is exact (rational
    totals), multiplying the result by [row_count - 1] gives [total] back.
    In binary64 the quotient is rounded and the product need not. *)
Theorem movement_per_frame_inverse_exact :
  (forall (A : Type) (num : PyNum A) (self : BodyTracking A) (total : A),
     (2 <= length (getData self))%nat ->
     movement_per_frame self total =
       Ok (div total (of_int (Z.of_nat (length (getData self)) - 1)))) /\
  (forall (self : BodyTracking Qc) (total : Qc),
     (2 <= length (getData self))%nat ->
     exists q,
       movement_per_frame self total = Ok q /\
       mul q (of_int (Z.of_nat (length (getData self)) - 1)) = total).
Proof.
  assert (Hquot : forall (A : Type) (num : PyNum A) (self : BodyTracking A)
                    (total : A),
             (2 <= length (getData self))%nat ->
             movement_per_frame self total =
               Ok (div total (of_int (Z.of_nat (length (getData self)) - 1)))).
  { intros A num self total Hrows. unfold movement_per_frame, truediv_len.
    replace (Z.of_nat (length (getData self)) <=? 1) with false
      by (symmetry; apply Z.leb_gt; lia).
    replace (Z.of_nat (length (getData self)) - 1 =? 0) with false
      by (symmetry; apply Z.eqb_neq; lia).
    reflexivity. }
  split; [exact Hquot|].
  intros self total Hrows. eexists. split; [apply Hquot; exact Hrows|].
  apply exact_division_inverts. lia.
Qed.

(** C2, on the example table: 6 / 2 * 2 = 6. *)
Lemma movement_per_frame_inverse_example :
  exists q,
    movement_per_frame example_session_exact (of_int 6) = Ok q /\
    mul q (of_int (Z.of_nat (length (getData example_session_exact)) - 1))
      = of_int 6.
Proof.
  apply (proj2 movement_per_frame_inverse_exact
           example_session_exact (of_int 6)).
  simpl. lia.
Defined.

(** C2, as stated, fails in binary64: with 50 rows and a total of 1.0 the
    function returns 1.0 / 49, and 1.0 / 49 * 49 is below 1.0 (it is
    0.9999999999999999). *)
Lemma movement_per_frame_inverse_fails_in_binary64 :
  length (getData fifty_frames_session) = 50%nat /\
  movement_per_frame fifty_frames_session 1%float = Ok (1 / 49)%float /\
  eq_num (mul (1 / 49)%float
              (of_int (Z.of_nat (length (getData fifty_frames_session)) - 1)))
         1%float = false /\
  gt 1%float (mul (1 / 49)%float (of_int 49)) = true.
Proof. vm_compute. repeat split. Qed.

(** ** The interval filter *)

(** C4 (as amended).  On a non-empty table whose timestamps are
    non-decreasing, [filter_interval(0, end)] with
    [end >= last_timestamp - first_timestamp] returns the whole table,
    every row in its place.  In exact arithmetic this holds as it reads.
    In binary64 it holds for timestamps that are numbers (finite) and for
    every [float] [end], an infinite one included, that is [>=] the exact
    difference: the sum [first_timestamp + end] is rounded to the nearest
    binary64 number, and rounding cannot pass below [last_timestamp], which
    is a binary64 number under the exact sum.  It holds as well for an
    [int] [end] that is a binary64 number; an [int] that is not is rounded
    when it meets the [float] timestamp, and may then fall short. *)
Theorem filter_interval_full_window :
  (forall (self : BodyTracking Qc) (end_sec d : Qc),
     series_duration (getData self) = Some d ->
     nondecreasing (map timestamp (getData self)) = true ->
     ge end_sec d = true ->
     filter_interval self (of_int 0) end_sec = Ok (getData self)) /\
  (forall (self : BodyTracking float) (end_sec : float) r0 rest,
     getData self = r0 :: rest ->
     nondecreasing (map timestamp (getData self)) = true ->
     is_finite (timestamp r0) = true ->
     is_finite (last (map timestamp rest) (timestamp r0)) = true ->
     exact_ge end_sec (last (map timestamp rest) (timestamp r0))
              (timestamp r0) = true ->
     filter_interval self (of_int 0) end_sec = Ok (getData self)) /\
  (forall (self : BodyTracking float) (end_sec : Z) r0 rest,
     getData self = r0 :: rest ->
     nondecreasing (map timestamp (getData self)) = true ->
     is_finite (timestamp r0) = true ->
     is_finite (last (map timestamp rest) (timestamp r0)) = true ->
     converts_exactly end_sec = true ->
     Qle_bool (float_to_Q (last (map timestamp rest) (timestamp r0))
               - float_to_Q (timestamp r0)) (inject_Z end_sec) = true ->
     filter_interval self (of_int 0) (of_int end_sec) = Ok (getData self)).
Proof.
  assert (Hfloat : forall (self : BodyTracking float) (end_sec : float)
                     r0 rest,
             getData self = r0 :: rest ->
             nondecreasing (map timestamp (getData self)) = true ->
             is_finite (timestamp r0) = true ->
             is_finite (last (map timestamp rest) (timestamp r0)) = true ->
             exact_ge end_sec (last (map timestamp rest) (timestamp r0))
                      (timestamp r0) = true ->
             filter_interval self (of_int 0) end_sec = Ok (getData self)).
  { intros self end_sec r0 rest Edf Hsorted Hfirst Hlast Hend.
    apply (full_window_keeps_all self end_sec r0 rest Edf Hsorted).
    apply float_add_reaches; assumption. }
  split; [|split; [exact Hfloat|]].
  - intros self end_sec d Hd Hsorted Hend.
    destruct (getData self) as [|r0 rest] eqn:Edf; [discriminate Hd|].
    rewrite <- Edf in Hsorted |- *.
    apply (full_window_keeps_all self end_sec r0 rest Edf Hsorted).
    apply exact_window_reaches_last.
    unfold series_duration in Hd. cbn [map] in Hd. injection Hd as <-.
    exact Hend.
  - intros self end_sec r0 rest Edf Hsorted Hfirst Hlast Hexact Hend.
    apply (Hfloat self (of_int end_sec) r0 rest Edf Hsorted Hfirst Hlast).
    unfold converts_exactly in Hexact.
    apply andb_true_iff in Hexact as [Hfin Hsame].
    unfold exact_ge. cbn [of_int float_num]. rewrite Hfin.
    apply Qeq_bool_iff in Hsame. apply Qle_bool_iff in Hend.
    apply Qle_bool_iff. rewrite Hsame. exact Hend.
Qed.

(** C4, on the example table, whose duration is 2: in exact arithmetic,
    in binary64 with the [float] 2.0 and with the [int] 2; and in binary64
    on the timestamps 0.2 and 0.9 with the window end 0.7000000000000001,
    the binary64 number next above 0.9 - 0.2. *)
Lemma filter_interval_full_window_example :
  filter_interval example_session_exact (of_int 0) (of_int 2)
    = Ok (getData example_session_exact) /\
  filter_interval example_session_float 0%float 2%float
    = Ok (getData example_session_float) /\
  filter_interval example_session_float (of_int 0) (of_int 2)
    = Ok (getData example_session_float) /\
  filter_interval short_clip_session 0%float (next_up (0.9 - 0.2))%float
    = Ok (getData short_clip_session).
Proof.
  split; [|split; [|split]].
  - apply (proj1 filter_interval_full_window example_session_exact (of_int 2)
             (sub (of_int 2) (of_int 0))).
    + reflexivity.
    + vm_compute. reflexivity.
    + vm_compute. reflexivity.
  - apply (proj1 (proj2 filter_interval_full_window) example_session_float
             2%float {| timestamp := 0%float; coords := [0%float] |}
             (table [(1, 1); (2, 4)]%float));
      vm_compute; reflexivity.
  - apply (proj2 (proj2 filter_interval_full_window) example_session_float
             2 {| timestamp := 0%float; coords := [0%float] |}
             (table [(1, 1); (2, 4)]%float));
      vm_compute; reflexivity.
  - apply (proj1 (proj2 filter_interval_full_window) short_clip_session
             (next_up (0.9 - 0.2))%float
             {| timestamp := 0.2%float; coords := [0%float] |}
             (table [(0.9, 1)]%float));
      vm_compute; reflexivity.
Defined.

(** C4, as stated, fails for a window end that is an [int] too long for a
    [float]: on the timestamps 1 and 2^53 + 2 the [int] 2^53 + 1 is the
    exact difference, yet [filter_interval(0, 2^53 + 1)] drops the last
    row.  The [int] is converted to 2^53 when it is added to the first
    timestamp, and 1 + 2^53 is rounded to 2^53.  It fails as well on
    timestamps that are not numbers: from minus infinity to plus infinity
    the duration is infinite, and [filter_interval(0, inf)] returns no row,
    the window end [-inf + inf] being NaN. *)
Lemma filter_interval_full_window_fails_for_inexact_int :
  (nondecreasing (map timestamp (getData large_timestamps_session)) = true /\
   is_finite 1%float = true /\ is_finite 9007199254740994%float = true /\
   Qle_bool (float_to_Q 9007199254740994%float - float_to_Q 1%float)
            (inject_Z (2 ^ 53 + 1)) = true /\
   ge (of_int (2 ^ 53 + 1)) (9007199254740994 - 1)%float = true /\
   converts_exactly (2 ^ 53 + 1) = false /\
   filter_interval large_timestamps_session (of_int 0) (of_int (2 ^ 53 + 1))
     = Ok (table [(1, 0)]%float) /\
   length (getData large_timestamps_session) = 2%nat) /\
  (nondecreasing (map timestamp (getData infinite_timestamps_session))
     = true /\
   series_duration (getData infinite_timestamps_session) = Some infinity /\
   ge infinity infinity = true /\
   filter_interval infinite_timestamps_session (of_int 0) infinity = Ok [] /\
   length (getData infinite_timestamps_session) = 2%nat).
Proof. vm_compute. repeat split. Qed.

(** A caveat to C4.  The difference [last - first] that a program computes
    in binary64 may lie below the exact one, and is then not a window end
    to which C4 applies: on the timestamps 0.2 and 0.9 the computed
    duration 0.9 - 0.2 is [2^-54] short of the exact difference, the sum
    0.2 + (0.9 - 0.2) is rounded to 0.8999999999999999, and
    [filter_interval(0, 0.9 - 0.2)] drops the last row. *)
Remark computed_duration_may_fall_short :
  series_duration (getData short_clip_session) = Some (0.9 - 0.2)%float /\
  exact_ge (0.9 - 0.2)%float 0.9%float 0.2%float = false /\
  filter_interval short_clip_session 0%float (0.9 - 0.2)%float
    = Ok (table [(0.2, 0)]%float) /\
  length (getData short_clip_session) = 2%nat.
Proof. vm_compute. repeat split. Qed.

(** C5 (as amended).  On a non-empty table, [filter_interval(a, b)] returns
    the empty table as soon as [first_timestamp + a > first_timestamp + b]
    holds for the sums the function computes.  In exact arithmetic [a > b]
    ensures it; in binary64 the condition is on the rounded sums. *)
Theorem filter_interval_inverted_window :
  (forall (self : BodyTracking Qc) (a b : Qc),
     getData self <> [] -> gt a b = true ->
     filter_interval self a b = Ok []) /\
  (forall (self : BodyTracking float) (a b : float) r0 rest,
     getData self = r0 :: rest ->
     gt (add (timestamp r0) a) (add (timestamp r0) b) = true ->
     filter_interval self a b = Ok []).
Proof.
  split.
  - intros self a b Hne Hgt.
    destruct (getData self) as [|r0 rest] eqn:Edf;
      [contradiction Hne; reflexivity|].
    apply (inverted_window_keeps_none self a b r0 rest Edf).
    apply exact_offsets_keep_order. exact Hgt.
  - intros self a b r0 rest. apply inverted_window_keeps_none.
Qed.

(** C5, on the example table with the window [2, 1]: in exact arithmetic
    and in binary64. *)
Lemma filter_interval_inverted_window_example :
  filter_interval example_session_exact (of_int 2) (of_int 1) = Ok [] /\
  filter_interval example_session_float 2%float 1%float = Ok [].
Proof.
  split.
  - apply (proj1 filter_interval_inverted_window example_session_exact
             (of_int 2) (of_int 1)).
    + discriminate.
    + reflexivity.
  - apply (proj2 filter_interval_inverted_window example_session_float
             2%float 1%float
             {| timestamp := 0%float; coords := [0%float] |}
             (table [(1, 1); (2, 4)]%float)).
    + reflexivity.
    + vm_compute. reflexivity.
Defined.

(** C5, as stated, fails in binary64: at the Unix-epoch timestamp
    1700000000 the offset 1e-8 is below the rounding step, so
    [filter_interval(1e-8, 0)] has [start_ts = end_ts = t0] and keeps the
    first row although 1e-8 > 0. *)
Lemma filter_interval_inverted_window_fails_in_binary64 :
  gt 1e-8%float 0%float = true /\
  filter_interval epoch_session 1e-8%float 0%float
    = Ok (table [(1700000000, 0)]%float) /\
  length (getData epoch_session) = 2%nat.
Proof. vm_compute. repeat split. Qed.

(** ** More on construction *)

Section ConstructionFacts.
Context {A : Type} `{PyNum A}.

Lemma float_truediv_thirty :
  float_truediv 1%float (PyInt 30) = Ok (1 / 30)%float.
Proof. vm_compute. reflexivity. Qed.

Lemma file_fps_divides (f : float) :
  equals_zero (file_fps f) = false /\
  exists interval, float_truediv 1%float (file_fps f) = Ok interval.
Proof.
  unfold file_fps. destruct (eq_num f (of_int 0)) eqn:E.
  - split; [reflexivity|]. eexists. exact float_truediv_thirty.
  - split; [exact E|]. eexists. cbn [float_truediv]. rewrite E. reflexivity.
Qed.

Lemma init_inversion (env : Env A) processor_arg mode_arg path model selected
    (self : BodyTracking A) :
  BodyTracking_init env processor_arg mode_arg path model selected = Ok self ->
  exists p trk,
    ((processor_arg = MEDIAPIPE /\ new_MediaPipeProcessor env = Ok p) \/
     (processor_arg = YOLO /\ new_YoloProcessor env model = Ok p)) /\
    new_CameraPoseTracker env p selected = Ok trk /\
    (mode_arg = CAMERA \/ mode_arg = VIDEO) /\
    tracker self = trk /\ mode self = mode_arg /\
    text self = match p with
                | YoloProcessor _ => "YOLO"%string
                | MediaPipeProcessor => "MediaPipe"%string
                end /\
    fps self = match mode_arg with
               | VIDEO => file_fps (cap_get_CAP_PROP_FPS env path)
               | _ => PyInt 30
               end /\
    float_truediv 1%float (fps self) = Ok (frame_interval self) /\
    path_video self = match mode_arg with VIDEO => Some path | _ => None end /\
    source (cap self) = match mode_arg with
                        | VIDEO => VideoFile path
                        | _ => CameraIndex 0
                        end /\
    starttime self = None /\ endtime self = None /\
    stop_processing self = false /\
    pos_msec_writes (cap self) = [] /\ console self = [].
Proof.
  unfold BodyTracking_init. intro Hinit.
  assert (Hproc : exists p,
            ((processor_arg = MEDIAPIPE /\ new_MediaPipeProcessor env = Ok p) \/
             (processor_arg = YOLO /\ new_YoloProcessor env model = Ok p)) /\
            (match processor_arg with
             | MEDIAPIPE => p <- new_MediaPipeProcessor env ;; Ok (Some p)
             | YOLO => p <- new_YoloProcessor env model ;; Ok (Some p)
             | OtherProcessor _ => Ok None
             end) = Ok (Some p)).
  { destruct processor_arg; simpl in Hinit |- *.
    - destruct (new_MediaPipeProcessor env) as [p|e]; [|discriminate Hinit].
      exists p. split; [left; split; reflexivity | reflexivity].
    - destruct (new_YoloProcessor env model) as [p|e]; [|discriminate Hinit].
      exists p. split; [right; split; reflexivity | reflexivity].
    - discriminate Hinit. }
  destruct Hproc as [p [Hp Hsel]]. rewrite Hsel in Hinit.
  cbn [bind] in Hinit.
  destruct (new_CameraPoseTracker env p selected) as [trk|e] eqn:Htrk;
    [|discriminate Hinit].
  cbn [bind] in Hinit. exists p, trk.
  split; [exact Hp|]. split; [exact Htrk|].
  destruct mode_arg as [| |tag]; cbn [bind] in Hinit; [| |discriminate Hinit].
  - rewrite float_truediv_thirty in Hinit. cbn [bind] in Hinit.
    injection Hinit as <-. cbn.
    split; [left; reflexivity|]. repeat split.
  - destruct (file_fps_divides (cap_get_CAP_PROP_FPS env path))
      as [_ [interval Hdiv]].
    rewrite Hdiv in Hinit. cbn [bind] in Hinit.
    injection Hinit as <-. cbn.
    split; [right; reflexivity|]. repeat split. exact Hdiv.
Qed.

(** X1.  The constructor returns an object exactly when the processor
    argument names one of the two backends, that backend and the tracker
    are built without error, and the mode is CAMERA or VIDEO.  A processor
    argument that names neither backend leaves [self.processor] unset, so
    building the tracker raises [AttributeError], before the mode is looked
    at: an invalid mode does not turn it into the [ValueError]. *)
Theorem construction_succeeds_iff
    (env : Env A) (processor_arg : PoseProcessor) (mode_arg : VideoMode)
    (path model : string) (selected : option (list string)) :
  (returns (BodyTracking_init env processor_arg mode_arg path model selected)
   <->
   (exists p trk,
      ((processor_arg = MEDIAPIPE /\ new_MediaPipeProcessor env = Ok p) \/
       (processor_arg = YOLO /\ new_YoloProcessor env model = Ok p)) /\
      new_CameraPoseTracker env p selected = Ok trk /\
      (mode_arg = CAMERA \/ mode_arg = VIDEO))) /\
  (forall tag,
     BodyTracking_init env (OtherProcessor tag) mode_arg path model selected
       = Raise AttributeError).
Proof.
  split; [split|reflexivity].
  - intros [self Hinit].
    destruct (init_inversion _ _ _ _ _ _ _ Hinit)
      as [p [trk [Hp [Htrk [Hmode _]]]]].
    exists p, trk. repeat split; assumption.
  - intros [p [trk [Hp [Htrk Hmode]]]]. unfold BodyTracking_init.
    destruct Hp as [[-> Hp] | [-> Hp]]; rewrite Hp; cbn [bind]; rewrite Htrk;
      cbn [bind]; destruct Hmode as [-> | ->]; cbn [bind];
      try rewrite float_truediv_thirty;
      try (destruct (file_fps_divides (cap_get_CAP_PROP_FPS env path))
             as [_ [interval ->]]);
      eexists; reflexivity.
Qed.

(** X2.  An object the constructor returns never has a frame rate equal to
    0: a camera runs at the [int] 30, a file at the [float] it reports,
    and at the [int] 30 when it reports 0.  So the division
    [1.0 / self.fps] of the constructor never raises [ZeroDivisionError],
    and [frame_interval] is that quotient, in binary64 whatever the numbers
    of the table are. *)
Theorem constructed_fps_is_not_zero
    (env : Env A) (processor_arg : PoseProcessor) (mode_arg : VideoMode)
    (path model : string) (selected : option (list string))
    (self : BodyTracking A) :
  BodyTracking_init env processor_arg mode_arg path model selected = Ok self ->
  equals_zero (fps self) = false /\
  (mode_arg = CAMERA -> fps self = PyInt 30) /\
  (mode_arg = VIDEO ->
     eq_num (cap_get_CAP_PROP_FPS env path) (of_int 0) = true ->
     fps self = PyInt 30) /\
  (mode_arg = VIDEO ->
     eq_num (cap_get_CAP_PROP_FPS env path) (of_int 0) = false ->
     fps self = PyFloat (cap_get_CAP_PROP_FPS env path)) /\
  float_truediv 1%float (fps self) = Ok (frame_interval self) /\
  (forall k, fps self = PyInt k ->
     frame_interval self = PrimFloat.div 1 (float_of_int k)) /\
  (forall f, fps self = PyFloat f ->
     frame_interval self = PrimFloat.div 1 f).
Proof.
  intro Hinit.
  destruct (init_inversion _ _ _ _ _ _ _ Hinit)
    as [p [trk [_ [_ [Hmode [_ [_ [_ [Hfps [Hint _]]]]]]]]]].
  assert (Hnz : equals_zero (fps self) = false).
  { rewrite Hfps. destruct Hmode as [-> | ->]; [reflexivity|].
    apply file_fps_divides. }
  split; [exact Hnz|].
  split; [intros ->; exact Hfps|].
  split; [intros -> E; rewrite Hfps; unfold file_fps; rewrite E; reflexivity|].
  split; [intros -> E; rewrite Hfps; unfold file_fps; rewrite E; reflexivity|].
  split; [exact Hint|]. split.
  - intros k Ek. rewrite Ek in Hint, Hnz. cbn [float_truediv equals_zero] in *.
    unfold truediv_int in Hint. rewrite Hnz in Hint.
    destruct (overflows k); [discriminate Hint|].
    injection Hint as <-. reflexivity.
  - intros f Ef. rewrite Ef in Hint, Hnz. cbn [float_truediv equals_zero] in *.
    rewrite Hnz in Hint. injection Hint as <-. reflexivity.
Qed.
End ConstructionFacts.

(** X2, for a file that reports no frame rate, and for one that reports 25
    frames per second. *)
Lemma constructed_fps_fallback_example :
  (exists self,
     BodyTracking_init silent_file_env YOLO VIDEO "clip.mp4" "yolo.pt" None
       = Ok self /\
     fps self = PyInt 30 /\ equals_zero (fps self) = false /\
     frame_interval self = (1 / 30)%float) /\
  (exists self,
     BodyTracking_init working_env YOLO VIDEO "clip.mp4" "yolo.pt" None
       = Ok self /\
     fps self = PyFloat 25%float /\ frame_interval self = (1 / 25)%float).
Proof.
  split.
  - eexists. split; [vm_compute; reflexivity|].
    match goal with
    | |- fps ?s = _ /\ _ =>
        destruct (constructed_fps_is_not_zero (A:=float) silent_file_env
                    YOLO VIDEO "clip.mp4"%string "yolo.pt"%string None s
                    eq_refl)
          as [Hnz [_ [Hzero [_ [_ [Hk _]]]]]]
    end.
    pose proof (Hzero eq_refl eq_refl) as Hfps.
    split; [exact Hfps|]. split; [exact Hnz|].
    exact (Hk 30 Hfps).
  - eexists. split; [vm_compute; reflexivity|].
    match goal with
    | |- fps ?s = _ /\ _ =>
        destruct (constructed_fps_is_not_zero (A:=float) working_env
                    YOLO VIDEO "clip.mp4"%string "yolo.pt"%string None s
                    eq_refl)
          as [_ [_ [_ [Hrate [_ [_ Hf]]]]]]
    end.
    pose proof (Hrate eq_refl eq_refl) as Hfps.
    split; [exact Hfps|].
    exact (Hf _ Hfps).
Defined.

(** ** More on the time window *)

Section WindowFacts.
Context {A : Type} `{PyNum A}.

Lemma set_times_accepts (self : BodyTracking A) (s e : A) :
  mode self = VIDEO -> gt e s = true ->
  set_times self s e =
    Ok (cap_set_pos_msec (with_times self (Some s) (Some e))
          (mul s (of_int 1000))).
Proof. intros Hmode Hgt. unfold set_times. rewrite Hmode, Hgt. reflexivity. Qed.

Lemma set_times_rejects (self : BodyTracking A) (s e : A) :
  mode self = VIDEO -> gt e s = false ->
  set_times self s e = Ok (print self warning).
Proof. intros Hmode Hgt. unfold set_times. rewrite Hmode, Hgt. reflexivity. Qed.

(** X3.  After any sequence of [set_times] calls on a file session, the
    window is the one of the last accepted call (a call with
    [endsec > startsec]), or the previous window when none was accepted;
    the video source was sought once per accepted call, to
    [startsec * 1000] milliseconds, in call order; one warning was printed
    per rejected call; and no call raised. *)
Theorem set_times_sequence (self : BodyTracking A) (calls : list (A * A)) :
  mode self = VIDEO ->
  exists self',
    set_times_all self calls = Ok self' /\
    mode self' = VIDEO /\
    tracker self' = tracker self /\
    starttime self' =
      last (map (fun c => Some (fst c)) (accepted calls)) (starttime self) /\
    endtime self' =
      last (map (fun c => Some (snd c)) (accepted calls)) (endtime self) /\
    pos_msec_writes (cap self') =
      rev (map (fun c => mul (fst c) (of_int 1000)) (accepted calls))
        ++ pos_msec_writes (cap self) /\
    console self' =
      console self ++ repeat warning (length (rejected calls)).
Proof.
  revert self. induction calls as [|[s e] calls IH]; intros self Hmode.
  - exists self. simpl. rewrite app_nil_r. repeat split; auto.
  - unfold accepted, rejected. cbn [set_times_all filter fst snd].
    destruct (gt e s) eqn:Hgt; cbn [negb].
    + rewrite (set_times_accepts self s e Hmode Hgt). cbn [bind].
      destruct (IH (cap_set_pos_msec (with_times self (Some s) (Some e))
                      (mul s (of_int 1000))) Hmode)
        as [self' [Hrun [Hm [Ht [Hs [He [Hw Hc]]]]]]].
      exists self'. split; [exact Hrun|]. split; [exact Hm|].
      split; [exact Ht|].
      cbn [map fst snd]. rewrite !last_cons.
      split; [exact Hs|]. split; [exact He|]. split; [|exact Hc].
      rewrite Hw. cbn [rev]. rewrite <- app_assoc. reflexivity.
    + rewrite (set_times_rejects self s e Hmode Hgt). cbn [bind].
      destruct (IH (print self warning) Hmode)
        as [self' [Hrun [Hm [Ht [Hs [He [Hw Hc]]]]]]].
      exists self'. split; [exact Hrun|]. split; [exact Hm|].
      split; [exact Ht|]. split; [exact Hs|]. split; [exact He|].
      split; [exact Hw|].
      rewrite Hc. cbn [length repeat print console].
      rewrite <- app_assoc. reflexivity.
Qed.
End WindowFacts.

(** X3, on a file session: [2, 8] accepted, [9, 3] rejected, [4, 6]
    accepted. *)
Lemma set_times_sequence_example :
  exists self',
    set_times_all (session_of VIDEO [])
      [(2, 8); (9, 3); (4, 6)]%float = Ok self' /\
    starttime self' = Some 4%float /\ endtime self' = Some 6%float /\
    pos_msec_writes (cap self') = [4000; 2000]%float /\
    console self' = [warning].
Proof.
  destruct (set_times_sequence (session_of VIDEO [])
              [(2, 8); (9, 3); (4, 6)]%float eq_refl)
    as [self' [Hrun [_ [_ [Hs [He [Hw Hc]]]]]]].
  exists self'. split; [exact Hrun|].
  split; [exact Hs|]. split; [exact He|]. split; [exact Hw | exact Hc].
Defined.

Lemma float_cmp_nan_l (x : float) : float_cmp nan x = None.
Proof. rewrite float_cmp_spec. reflexivity. Qed.

Lemma float_cmp_nan_r (x : float) : float_cmp x nan = None.
Proof.
  rewrite float_cmp_spec. change (Prim2SF nan) with S754_nan.
  destruct (Prim2SF x); reflexivity.
Qed.

(** X4.  In binary64 a NaN bound never configures a window: on a file
    session [set_times] with a NaN start or a NaN end takes the rejecting
    branch, whatever the other bound is, so the window stays as it was and
    the warning is printed. *)
Theorem set_times_rejects_nan (self : BodyTracking float) (x : float) :
  mode self = VIDEO ->
  set_times self x nan = Ok (print self warning) /\
  set_times self nan x = Ok (print self warning).
Proof.
  intro Hmode. split; apply set_times_rejects; try exact Hmode;
    unfold gt; cbn [cmp float_num].
  - rewrite float_cmp_nan_l. reflexivity.
  - rewrite float_cmp_nan_r. reflexivity.
Qed.

(** X4, on the session whose window is [2, 8]. *)
Lemma set_times_rejects_nan_example :
  set_times windowed_session 1%float nan = Ok (print windowed_session warning)
  /\ starttime (print windowed_session warning) = Some 2%float
  /\ endtime (print windowed_session warning) = Some 8%float.
Proof.
  split; [|split; reflexivity].
  exact (proj1 (set_times_rejects_nan windowed_session 1%float eq_refl)).
Defined.

(** ** More on the interval filter *)

Section FilterFacts.
Context {A : Type} {num : PyNum A}.

Implicit Types (self : BodyTracking A) (df : DataFrame A).

Lemma filter_filter {T : Type} (p q : T -> bool) (l : list T) :
  filter p (filter q l) = filter (fun x => q x && p x) l.
Proof.
  induction l as [|x l IH]; [reflexivity|].
  simpl. destruct (q x); simpl; [destruct (p x)|]; rewrite IH; reflexivity.
Qed.

Lemma filter_interval_in_window self r0 rest a b :
  getData self = r0 :: rest ->
  filter_interval self a b =
    Ok (filter (in_window (timestamp r0) a b) (r0 :: rest)).
Proof. apply filter_interval_unfold. Qed.

Lemma getData_with_data self df : getData (with_data self df) = df.
Proof. reflexivity. Qed.

(** Filtering what a filter returned, when the first row was kept, is
    filtering the table by both windows at once. *)
Lemma refilter_when_first_kept self a b a' b' r0 rest wide :
  getData self = r0 :: rest ->
  in_window (timestamp r0) a' b' r0 = true ->
  filter_interval self a' b' = Ok wide ->
  filter_interval (with_data self wide) a b =
    Ok (filter (fun r => in_window (timestamp r0) a' b' r
                         && in_window (timestamp r0) a b r) (r0 :: rest)).
Proof.
  intros Edf Hfirst Hwide.
  rewrite (filter_interval_in_window self r0 rest a' b' Edf) in Hwide.
  injection Hwide as <-.
  assert (Hw : filter (in_window (timestamp r0) a' b') (r0 :: rest)
               = r0 :: filter (in_window (timestamp r0) a' b') rest)
    by (cbn [filter]; rewrite Hfirst; reflexivity).
  rewrite (filter_interval_in_window _ r0
             (filter (in_window (timestamp r0) a' b') rest) a b)
    by (rewrite getData_with_data; exact Hw).
  f_equal. rewrite <- Hw. apply filter_filter.
Qed.
End FilterFacts.

Section LawfulFilterFacts.
Context {A : Type} {num : PyNum A} {laws : LawfulNum A}.

Implicit Types (self : BodyTracking A) (df : DataFrame A).

Lemma nondecreasing_strongly_sorted (ts : list A) :
  nondecreasing ts = true -> StronglySorted le_prop ts.
Proof.
  induction ts as [|x ts IH]; intro Hs; [constructor|].
  destruct ts as [|y ts]; [constructor; constructor|].
  change (le x y && nondecreasing (y :: ts) = true) in Hs.
  apply andb_true_iff in Hs as [Hxy Hrest].
  specialize (IH Hrest). constructor; [exact IH|].
  constructor; [exact Hxy|].
  apply StronglySorted_inv in IH as [_ Hall].
  eapply Forall_impl; [|exact Hall].
  intros z Hyz. exact (le_trans x y z Hxy Hyz).
Qed.

Lemma strongly_sorted_nondecreasing (ts : list A) :
  StronglySorted le_prop ts -> nondecreasing ts = true.
Proof.
  induction ts as [|x ts IH]; intro Hs; [reflexivity|].
  apply StronglySorted_inv in Hs as [Hrest Hall].
  destruct ts as [|y ts]; [reflexivity|].
  change (le x y && nondecreasing (y :: ts) = true).
  apply andb_true_iff. split; [|exact (IH Hrest)].
  apply Forall_inv in Hall. exact Hall.
Qed.

Lemma strongly_sorted_filter (p : A -> bool) (ts : list A) :
  StronglySorted le_prop ts -> StronglySorted le_prop (filter p ts).
Proof.
  induction ts as [|x ts IH]; intro Hs; [constructor|].
  apply StronglySorted_inv in Hs as [Hrest Hall]. simpl.
  destruct (p x); [|exact (IH Hrest)].
  constructor; [exact (IH Hrest)|].
  apply Forall_forall. intros z Hz. apply filter_In in Hz as [Hz _].
  exact (proj1 (Forall_forall _ _) Hall z Hz).
Qed.

(** Narrowing the computed bounds narrows the test. *)
Lemma in_window_narrower t0 a b a' b' (r : LandmarkRow A) :
  le (add t0 a') (add t0 a) = true ->
  le (add t0 b) (add t0 b') = true ->
  in_window t0 a b r = true -> in_window t0 a' b' r = true.
Proof.
  unfold in_window. intros Hlo Hhi Hin.
  apply andb_true_iff in Hin as [Hge Hle]. rewrite ge_le in Hge.
  apply andb_true_iff. split.
  - rewrite ge_le. exact (le_trans _ _ _ Hlo Hge).
  - exact (le_trans _ _ _ Hle Hhi).
Qed.

(** X5.  [filter_interval] keeps a sorted table sorted: when the
    timestamps of the table are non-decreasing, so are those of the rows it
    returns, whatever the offsets are. *)
Theorem filter_interval_keeps_order self a b out :
  nondecreasing (map timestamp (getData self)) = true ->
  filter_interval self a b = Ok out ->
  nondecreasing (map timestamp out) = true.
Proof.
  intros Hsorted Hout.
  destruct (getData self) as [|r0 rest] eqn:Edf.
  - unfold filter_interval in Hout. rewrite Edf, getitem_nil in Hout.
    discriminate Hout.
  - rewrite (filter_interval_unfold self r0 rest a b Edf) in Hout.
    injection Hout as <-.
    set (p := fun t : A => ge t (add (timestamp r0) a)
                           && le t (add (timestamp r0) b)).
    change (nondecreasing
              (map timestamp
                 (filter (fun r => p (timestamp r)) (r0 :: rest))) = true).
    rewrite <- (filter_map_swap p timestamp (r0 :: rest)).
    apply strongly_sorted_nondecreasing, strongly_sorted_filter,
          nondecreasing_strongly_sorted.
    exact Hsorted.
Qed.

Lemma windows_nest_lawful self a b a' b' r0 rest wide :
  getData self = r0 :: rest ->
  in_window (timestamp r0) a' b' r0 = true ->
  le (add (timestamp r0) a') (add (timestamp r0) a) = true ->
  le (add (timestamp r0) b) (add (timestamp r0) b') = true ->
  filter_interval self a' b' = Ok wide ->
  filter_interval (with_data self wide) a b = filter_interval self a b.
Proof.
  intros Edf Hfirst Hlo Hhi Hwide.
  rewrite (refilter_when_first_kept self a b a' b' r0 rest wide
             Edf Hfirst Hwide).
  rewrite (filter_interval_in_window self r0 rest a b Edf). f_equal.
  apply filter_ext. intro r.
  destruct (in_window (timestamp r0) a b r) eqn:Hin;
    [|apply andb_false_r].
  rewrite (in_window_narrower _ a b a' b' r Hlo Hhi Hin). reflexivity.
Qed.
End LawfulFilterFacts.

(** X5, on the example table with the window [1, 2]. *)
Lemma filter_interval_keeps_order_example :
  exists out,
    filter_interval example_session_float 1%float 2%float = Ok out /\
    nondecreasing (map timestamp out) = true.
Proof.
  eexists. split; [reflexivity|].
  eapply (filter_interval_keeps_order example_session_float 1%float 2%float);
    reflexivity.
Defined.

Section ExactFacts.
#[local] Open Scope Qc_scope.

Implicit Types (a b c t x y : Qc) (self : BodyTracking Qc).

Lemma add_le_mono_l t a b : a <= b -> t + a <= t + b.
Proof. intro Hab. apply Qcplus_le_compat; [apply Qcle_refl | exact Hab]. Qed.

Lemma le_exact_false a b : le a b = false <-> b < a.
Proof.
  split.
  - intro Hf. apply Qcnot_le_lt. intro Hle.
    apply le_exact in Hle. congruence.
  - intro Hlt. destruct (le a b) eqn:E; [|reflexivity].
    apply le_exact in E. exfalso. exact (Qclt_not_le _ _ Hlt E).
Qed.

Lemma of_int_pos (k : Z) : (0 < k)%Z -> 0 < of_int k.
Proof.
  intro Hk. cbn [of_int Qc_num]. unfold Qclt.
  change (this (Q2Qc (inject_Z k))) with (Qred (inject_Z k)).
  change (this 0) with 0%Q.
  rewrite Qred_correct. unfold Qlt. simpl. lia.
Qed.

Lemma div_nonneg x y : 0 <= x -> 0 < y -> 0 <= x / y.
Proof.
  intros Hx Hy. unfold Qcdiv.
  replace 0 with (0 * / y) by ring.
  apply Qcmult_le_compat_r; [exact Hx|].
  unfold Qcle, Qclt in *.
  change (this (/ y)) with (Qred (/ this y)).
  change (this 0) with 0%Q in *.
  rewrite Qred_correct. apply Qinv_le_0_compat. apply Qlt_le_weak. exact Hy.
Qed.

Lemma mul_pos x y : 0 < x -> 0 < y -> 0 < x * y.
Proof.
  intros Hx Hy. replace 0 with (0 * y) by ring.
  apply Qcmult_lt_compat_r; assumption.
Qed.

Lemma compare_shift x y c : (x + c ?= y + c) = (x ?= y).
Proof.
  destruct (x ?= y) eqn:E.
  - apply Qceq_alt in E. subst y. apply Qceq_alt. reflexivity.
  - apply Qclt_alt in E. apply Qclt_alt. apply Qcnot_le_lt. intro Hle.
    apply (Qclt_not_le _ _ E). apply (add_le_cancel_l c).
    rewrite (Qcplus_comm c y), (Qcplus_comm c x). exact Hle.
  - apply (Qcgt_alt x y) in E. apply (Qcgt_alt (x + c) (y + c)).
    apply Qcnot_le_lt. intro Hle.
    apply (Qclt_not_le _ _ E). apply (add_le_cancel_l c).
    rewrite (Qcplus_comm c y), (Qcplus_comm c x). exact Hle.
Qed.

Lemma last_map {T U : Type} (f : T -> U) (l : list T) (d : T) :
  last (map f l) (f d) = f (last l d).
Proof.
  induction l as [|x l IH]; [reflexivity|].
  destruct l as [|y l]; [reflexivity|]. exact IH.
Qed.

Lemma series_duration_shift c (df : DataFrame Qc) :
  series_duration (shift_table c df) = series_duration df.
Proof.
  destruct df as [|r0 rest]; [reflexivity|].
  unfold series_duration, shift_table. cbn [map timestamp].
  rewrite map_map. cbn [timestamp].
  rewrite <- (map_map timestamp (fun t => add t c) rest).
  rewrite (last_map (fun t => add t c)).
  f_equal. cbn [sub add Qc_num]. ring.
Qed.

Lemma in_window_shift c t0 a b (r : LandmarkRow Qc) :
  in_window (add t0 c) a b
    {| timestamp := add (timestamp r) c; coords := coords r |}
  = in_window t0 a b r.
Proof.
  unfold in_window, ge, le. cbn [timestamp cmp add Qc_num].
  replace (t0 + c + a) with (t0 + a + c) by ring.
  replace (t0 + c + b) with (t0 + b + c) by ring.
  rewrite !compare_shift. reflexivity.
Qed.

(** X6.  Windows nest.  When a window [a', b'] keeps the first row, and a
    window [a, b] lies inside it, filtering the rows that [a', b'] returned
    by [a, b] gives what filtering the table by [a, b] gives; with
    [a = a'] and [b = b'] this makes [filter_interval] idempotent.  In
    exact arithmetic the conditions are [a' <= 0 <= b'], [a' <= a] and
    [b <= b']; in binary64 they are on the bounds the function computes. *)
Theorem filter_interval_windows_nest :
  (forall (self : BodyTracking float) (a b a' b' : float) r0 rest wide,
     getData self = r0 :: rest ->
     in_window (timestamp r0) a' b' r0 = true ->
     le (add (timestamp r0) a') (add (timestamp r0) a) = true ->
     le (add (timestamp r0) b) (add (timestamp r0) b') = true ->
     filter_interval self a' b' = Ok wide ->
     filter_interval (with_data self wide) a b = filter_interval self a b) /\
  (forall self a b a' b' wide,
     le a' (of_int 0) = true -> le (of_int 0) b' = true ->
     le a' a = true -> le b b' = true ->
     filter_interval self a' b' = Ok wide ->
     filter_interval (with_data self wide) a b = filter_interval self a b).
Proof.
  split.
  - intros self a b a' b' r0 rest wide. apply windows_nest_lawful.
  - intros self a b a' b' wide Ha0 Hb0 Ha Hb Hwide.
    destruct (getData self) as [|r0 rest] eqn:Edf.
    + unfold filter_interval in Hwide. rewrite Edf, getitem_nil in Hwide.
      discriminate Hwide.
    + apply le_exact in Ha0, Hb0, Ha, Hb.
      change (of_int 0) with 0 in Ha0, Hb0.
      apply (windows_nest_lawful self a b a' b' r0 rest wide Edf).
      * unfold in_window. apply andb_true_iff. split.
        -- apply ge_exact. cbn [add Qc_num].
           pose proof (add_le_mono_l (timestamp r0) _ _ Ha0) as Hs.
           rewrite Qcplus_0_r in Hs. exact Hs.
        -- apply le_exact. cbn [add Qc_num].
           pose proof (add_le_mono_l (timestamp r0) _ _ Hb0) as Hs.
           rewrite Qcplus_0_r in Hs. exact Hs.
      * apply le_exact. apply add_le_mono_l. exact Ha.
      * apply le_exact. apply add_le_mono_l. exact Hb.
      * exact Hwide.
Qed.

(** X6, on the example table: the window [0, 2] and, inside it, [1, 2]. *)
Lemma filter_interval_windows_nest_example :
  exists wide,
    filter_interval example_session_exact (of_int 0) (of_int 2) = Ok wide /\
    filter_interval (with_data example_session_exact wide)
      (of_int 1) (of_int 2)
    = filter_interval example_session_exact (of_int 1) (of_int 2).
Proof.
  eexists. split; [reflexivity|].
  apply (proj2 filter_interval_windows_nest example_session_exact
           (of_int 1) (of_int 2) (of_int 0) (of_int 2)); reflexivity.
Defined.

(** X7.  Offsets are relative to the first row.  In exact arithmetic,
    moving every timestamp of the table by the same amount [c] leaves
    [movement_per_second], [movement_per_frame] and
    [normalized_movement_index] unchanged, and makes [filter_interval]
    select the same rows (returned with their moved timestamps). *)
Theorem statistics_ignore_time_origin self c total n a b :
  movement_per_second (with_data self (shift_table c (getData self))) total
    = movement_per_second self total /\
  movement_per_frame (with_data self (shift_table c (getData self))) total
    = movement_per_frame self total /\
  normalized_movement_index
    (with_data self (shift_table c (getData self))) total n
    = normalized_movement_index self total n /\
  filter_interval (with_data self (shift_table c (getData self))) a b
    = (out <- filter_interval self a b ;; Ok (shift_table c out)).
Proof.
  destruct (getData self) as [|r0 rest] eqn:Edf.
  - unfold movement_per_second, movement_per_frame,
      normalized_movement_index, filter_interval.
    rewrite getData_with_data, Edf. repeat split.
  - assert (Hd : series_duration (getData self)
                 = Some (sub (last (map timestamp rest) (timestamp r0))
                             (timestamp r0)))
      by (rewrite Edf; reflexivity).
    assert (Hd' : series_duration
                    (getData (with_data self (shift_table c (r0 :: rest))))
                  = Some (sub (last (map timestamp rest) (timestamp r0))
                              (timestamp r0)))
      by (rewrite getData_with_data, series_duration_shift, <- Edf;
          exact Hd).
    rewrite (movement_per_second_unfold _ total _ Hd').
    rewrite (movement_per_second_unfold _ total _ Hd).
    rewrite (normalized_movement_index_unfold _ total n _ Hd').
    rewrite (normalized_movement_index_unfold _ total n _ Hd).
    split; [reflexivity|]. split.
    { unfold movement_per_frame.
      rewrite getData_with_data, Edf. unfold shift_table.
      rewrite length_map. reflexivity. }
    split; [reflexivity|].
    rewrite (filter_interval_in_window self r0 rest a b Edf). cbn [bind].
    rewrite (filter_interval_in_window _
               {| timestamp := add (timestamp r0) c; coords := coords r0 |}
               (shift_table c rest) a b) by reflexivity.
    f_equal. cbn [timestamp].
    change ({| timestamp := add (timestamp r0) c; coords := coords r0 |}
            :: shift_table c rest) with (shift_table c (r0 :: rest)).
    unfold shift_table. rewrite filter_map_swap. f_equal.
    apply filter_ext. intro r. apply in_window_shift.
Qed.



(** X9.  The statistics of a non-negative total are non-negative.  In
    exact arithmetic, whenever [total_movement >= 0], every value that
    [movement_per_second], [movement_per_frame], [movement_per_landmark]
    or [normalized_movement_index] returns is [>= 0], on every table and
    for every landmark count. *)
Theorem statistics_are_nonnegative self total (n : Z) v :
  0 <= total ->
  (movement_per_second self total = Ok v -> 0 <= v) /\
  (movement_per_frame self total = Ok v -> 0 <= v) /\
  (movement_per_landmark self total n = Ok v -> 0 <= v) /\
  (normalized_movement_index self total n = Ok v -> 0 <= v).
Proof.
  intro Htotal.
  assert (Hlen : forall k, (0 < k)%Z ->
            truediv_len total k = Ok v -> 0 <= v).
  { intros k Hk. unfold truediv_len.
    replace (k =? 0)%Z with false by (symmetry; apply Z.eqb_neq; lia).
    intro E. injection E as <-. apply div_nonneg; [exact Htotal|].
    apply of_int_pos. exact Hk. }
  assert (Hint : forall k, (0 < k)%Z ->
            truediv_int total k = Ok v -> 0 <= v).
  { intros k Hk. unfold truediv_int. cbn [overflows Qc_num].
    exact (Hlen k Hk). }
  assert (Hzero : Ok (of_int 0) = Ok v -> 0 <= v).
  { intro E. injection E as <-. apply Qcle_refl. }
  split; [|split; [|split]].
  - destruct (getData self) as [|r0 rest] eqn:Edf.
    + rewrite (proj1 (empty_table_raises self total n total total Edf)).
      discriminate.
    + rewrite (movement_per_second_unfold self total
                 (sub (last (map timestamp rest) (timestamp r0))
                      (timestamp r0)))
        by (rewrite Edf; reflexivity).
      destruct (le _ (of_int 0)) eqn:Hle; [exact Hzero|].
      intro E. injection E as <-. apply le_exact_false in Hle.
      apply div_nonneg; assumption.
  - unfold movement_per_frame.
    destruct (Z.of_nat (length (getData self)) <=? 1)%Z eqn:Hrows;
      [exact Hzero|].
    apply Hlen. apply Z.leb_gt in Hrows. lia.
  - unfold movement_per_landmark.
    destruct (n <=? 0)%Z eqn:Hn; [exact Hzero|].
    apply Hint. apply Z.leb_gt in Hn. lia.
  - destruct (getData self) as [|r0 rest] eqn:Edf.
    + rewrite (proj1 (proj2 (empty_table_raises self total n total total
                               Edf))).
      discriminate.
    + rewrite (normalized_movement_index_unfold self total n
                 (sub (last (map timestamp rest) (timestamp r0))
                      (timestamp r0)))
        by (rewrite Edf; reflexivity).
      destruct (le _ (of_int 0)) eqn:Hle; cbn [orb]; [exact Hzero|].
      destruct (n <=? 0)%Z eqn:Hn; [exact Hzero|].
      unfold mul_int. cbn [overflows Qc_num bind].
      intro E. injection E as <-. apply le_exact_false in Hle.
      apply Z.leb_gt in Hn.
      apply div_nonneg; [exact Htotal|].
      apply mul_pos; [exact Hle | apply of_int_pos; exact Hn].
Qed.

(** X9, on the example table with a total of 6. *)
Lemma statistics_are_nonnegative_example :
  0 <= of_int 6 /\
  movement_per_second example_session_exact (of_int 6) = Ok (of_int 3) /\
  0 <= of_int 3.
Proof.
  assert (Hsix : 0 <= of_int 6) by (apply Qclt_le_weak, of_int_pos; lia).
  assert (Hrun : movement_per_second example_session_exact (of_int 6)
                 = Ok (of_int 3))
    by (vm_compute; f_equal; apply Qc_is_canon; reflexivity).
  split; [exact Hsix|]. split; [exact Hrun|].
  exact (proj1 (statistics_are_nonnegative example_session_exact (of_int 6)
                  2 (of_int 3) Hsix) Hrun).
Defined.
End ExactFacts.

(** ** The summary and the export *)

Section SummaryFacts.
Context {A : Type} `{PyNum A}.

(** X10.  [stats_summary] prints its lines one by one and stops at the
    first call that raises.  On an empty table it prints the raw amount
    and then raises the [IndexError] of [movement_per_second].  On a table
    with a row it prints the raw amount, the per-second and the per-frame
    averages; then, if the tracker holds no landmark list ([None]), [len]
    raises [TypeError]; otherwise it prints the per-landmark average and
    the normalized index, both for as many landmarks as the list names,
    and returns.  (Were the list so long that its length does not convert
    to a number, which no list in memory is, the per-landmark average
    would raise [OverflowError] after the third line.) *)
Theorem stats_summary_outcomes (self : BodyTracking A) (movement : A) :
  (getData self = [] ->
   stats_summary self movement =
     ([("Raw amount of movement:"%string, movement)],
      Some (MethodError IndexError))) /\
  (getData self <> [] ->
   exists a1 a2,
     movement_per_second self movement = Ok a1 /\
     movement_per_frame self movement = Ok a2 /\
     (selected_landmarks (tracker self) = None ->
      stats_summary self movement =
        ([("Raw amount of movement:"%string, movement);
          ("Amount of movement per second:"%string, a1);
          ("Amount of movement per frame:"%string, a2)],
         Some TypeError)) /\
     (forall names, selected_landmarks (tracker self) = Some names ->
      if (0 <? Z.of_nat (length names))
         && overflows (Z.of_nat (length names))
      then
        stats_summary self movement =
          ([("Raw amount of movement:"%string, movement);
            ("Amount of movement per second:"%string, a1);
            ("Amount of movement per frame:"%string, a2)],
           Some (MethodError OverflowError))
      else
      exists a3 a4,
        movement_per_landmark self movement (Z.of_nat (length names))
          = Ok a3 /\
        normalized_movement_index self movement (Z.of_nat (length names))
          = Ok a4 /\
        stats_summary self movement =
          ([("Raw amount of movement:"%string, movement);
            ("Amount of movement per second:"%string, a1);
            ("Amount of movement per frame:"%string, a2);
            ("Amount of movement per landmark:"%string, a3);
            ("Normalized amount of movement:"%string, a4)],
           None))).
Proof.
  split.
  - intro Edf. unfold stats_summary.
    rewrite (proj1 (empty_table_raises self movement 0 movement movement
                      Edf)).
    reflexivity.
  - intro Hne.
    destruct (series_duration_nonempty _ Hne) as [d Hd].
    assert (Hsec : returns (movement_per_second self movement)).
    { rewrite (movement_per_second_unfold self movement d Hd).
      destruct (le d (of_int 0)); eexists; reflexivity. }
    destruct Hsec as [a1 Ha1].
    destruct (movement_per_frame_returns self movement) as [a2 Ha2].
    exists a1, a2. split; [exact Ha1|]. split; [exact Ha2|]. split.
    + intro Hnone. unfold stats_summary.
      rewrite Ha1, Ha2, Hnone. reflexivity.
    + intros names Hnames. set (n := Z.of_nat (length names)).
      destruct (0 <? n) eqn:Hpos; cbn [andb].
      * apply Z.ltb_lt in Hpos.
        assert (Hn : (n <=? 0) = false) by (apply Z.leb_gt; exact Hpos).
        assert (Hz : (n =? 0) = false) by (apply Z.eqb_neq; lia).
        destruct (overflows n) eqn:Hov.
        -- unfold stats_summary. rewrite Ha1, Ha2, Hnames. fold n.
           unfold movement_per_landmark, truediv_int. rewrite Hn, Hov.
           reflexivity.
        -- assert (Ha3 : movement_per_landmark self movement n
                         = Ok (div movement (of_int n))).
           { unfold movement_per_landmark, truediv_int.
             rewrite Hn, Hov, Hz. reflexivity. }
           assert (Hidx : returns (normalized_movement_index self movement n)).
           { rewrite (normalized_movement_index_unfold self movement _ d Hd).
             unfold mul_int. rewrite Hn, Hov.
             destruct (le d (of_int 0)); eexists; reflexivity. }
           destruct Hidx as [a4 Ha4].
           eexists _, a4. split; [exact Ha3|]. split; [exact Ha4|].
           unfold stats_summary. rewrite Ha1, Ha2, Hnames. fold n.
           rewrite Ha3, Ha4. reflexivity.
      * apply Z.ltb_ge in Hpos.
        assert (Hn : (n <=? 0) = true) by (apply Z.leb_le; exact Hpos).
        assert (Ha3 : movement_per_landmark self movement n = Ok (of_int 0)).
        { unfold movement_per_landmark. rewrite Hn. reflexivity. }
        assert (Ha4 : normalized_movement_index self movement n
                      = Ok (of_int 0)).
        { rewrite (normalized_movement_index_unfold self movement _ d Hd).
          rewrite Hn, orb_true_r. reflexivity. }
        eexists _, _. split; [exact Ha3|]. split; [exact Ha4|].
        unfold stats_summary. rewrite Ha1, Ha2, Hnames. fold n.
        rewrite Ha3, Ha4. reflexivity.
Qed.

(** X11.  The default export name tells the backend.  For an object the
    constructor built with the YOLO backend, [save_csv()] hands the
    tracker the path [pose_dataYOLO_<time>.csv]; with the MediaPipe
    backend, [pose_dataMediaPipe_<time>.csv]; and a file name given by the
    caller is handed over as it is. *)
Theorem save_csv_default_name (env : Env A) (processor_arg : PoseProcessor)
    (mode_arg : VideoMode) (path model : string)
    (selected : option (list string)) (self : BodyTracking A)
    (now : string) :
  BodyTracking_init env processor_arg mode_arg path model selected = Ok self ->
  (forall m, processor_arg = YOLO ->
     new_YoloProcessor env model = Ok (YoloProcessor m) ->
     save_csv self None now
       = ("pose_dataYOLO_" ++ now ++ ".csv")%string) /\
  (processor_arg = MEDIAPIPE ->
     new_MediaPipeProcessor env = Ok MediaPipeProcessor ->
     save_csv self None now
       = ("pose_dataMediaPipe_" ++ now ++ ".csv")%string) /\
  (forall name, save_csv self (Some name) now = name).
Proof.
  intro Hinit.
  destruct (init_inversion _ _ _ _ _ _ _ Hinit)
    as [p [trk [Hp [_ [_ [_ [_ [Htext _]]]]]]]].
  unfold save_csv. rewrite Htext.
  split; [|split; [|reflexivity]].
  - intros m -> Hyolo.
    destruct Hp as [[Hk _] | [_ Hp]]; [discriminate Hk|].
    rewrite Hyolo in Hp. injection Hp as <-. reflexivity.
  - intros -> Hmp.
    destruct Hp as [[_ Hp] | [Hk _]]; [|discriminate Hk].
    rewrite Hmp in Hp. injection Hp as <-. reflexivity.
Qed.
End SummaryFacts.

(** X10, on the example table, whose tracker holds no landmark list. *)
Lemma stats_summary_example :
  stats_summary example_session_float 6%float =
    ([("Raw amount of movement:"%string, 6%float);
      ("Amount of movement per second:"%string, 3%float);
      ("Amount of movement per frame:"%string, 3%float)],
     Some TypeError).
Proof.
  assert (Hne : getData example_session_float <> []) by discriminate.
  destruct (proj2 (stats_summary_outcomes example_session_float 6%float) Hne)
    as [a1 [a2 [Ha1 [Ha2 [Hnone _]]]]].
  rewrite (Hnone eq_refl).
  vm_compute in Ha1, Ha2.
  injection Ha1 as <-. injection Ha2 as <-. reflexivity.
Defined.

(** X11, for a YOLO file session exported at time 1700000000.5. *)
Lemma save_csv_default_name_example :
  exists self,
    BodyTracking_init working_env YOLO VIDEO "clip.mp4" "yolo.pt" None
      = Ok self /\
    save_csv self None "1700000000.5" = "pose_dataYOLO_1700000000.5.csv"%string.
Proof.
  eexists. split; [reflexivity|].
  match goal with
  | |- save_csv ?s None ?now = _ =>
      exact (proj1 (save_csv_default_name working_env YOLO VIDEO
                      "clip.mp4"%string "yolo.pt"%string None s now eq_refl)
               "yolo.pt"%string eq_refl eq_refl)
  end.
Defined.

(** ** The capture loops *)

Section LoopFacts.
Context {A : Type} `{PyNum A}.

Implicit Types (ticks : list (Tick A)) (t : Tick A) (evs : list (Event A)).

Lemma sent_rows_app evs1 evs2 :
  sent_rows (evs1 ++ evs2) = sent_rows evs1 ++ sent_rows evs2.
Proof. apply flat_map_app. Qed.

Lemma blocks_of_app evs1 evs2 :
  blocks_of (evs1 ++ evs2) = blocks_of evs1 ++ blocks_of evs2.
Proof. apply flat_map_app. Qed.

Lemma shown_frames_app evs1 evs2 :
  shown_frames (evs1 ++ evs2) = shown_frames evs1 ++ shown_frames evs2.
Proof. apply flat_map_app. Qed.

Lemma sent_rows_imshow (f : Frame) evs :
  sent_rows (Imshow f :: evs) = sent_rows evs.
Proof. reflexivity. Qed.

Lemma shown_frames_imshow (f : Frame) evs :
  shown_frames (Imshow f :: evs) = f :: shown_frames evs.
Proof. reflexivity. Qed.

Lemma blocks_of_imshow (f : Frame) evs :
  blocks_of (Imshow f :: evs) = blocks_of evs.
Proof. reflexivity. Qed.

Lemma sent_rows_of_sends (rows : DataFrame A) :
  sent_rows (map send_row rows) = rows.
Proof.
  induction rows as [|r rows IH]; [reflexivity|].
  unfold sent_rows in *. cbn [map flat_map send_row obj app].
  f_equal. exact IH.
Qed.

Lemma shown_frames_of_sends (rows : DataFrame A) :
  shown_frames (map send_row rows) = [].
Proof. induction rows as [|r rows IH]; [reflexivity | exact IH]. Qed.

(** What one iteration reads as new, given that the table extends the
    rows counted so far. *)
Lemma new_rows_of_extension (prev more : DataFrame A) :
  (if has_new_rows (prev ++ more) (length prev)
   then skipn (length prev) (prev ++ more) else []) = more /\
  (if has_new_rows (prev ++ more) (length prev)
   then length (prev ++ more) else length prev) = length (prev ++ more).
Proof.
  unfold has_new_rows. destruct more as [|r more].
  - rewrite app_nil_r, Nat.ltb_irrefl, andb_false_r. split; reflexivity.
  - replace (length prev <? length (prev ++ r :: more))%nat with true
      by (symmetry; apply Nat.ltb_lt; rewrite length_app; simpl; lia).
    destruct (prev ++ r :: more) eqn:E;
      [destruct prev; discriminate E|].
    cbn [negb andb]. rewrite <- E.
    rewrite skipn_app, Nat.sub_diag, skipn_all. split; reflexivity.
Qed.

Lemma start_loop_forwards (end_time : option A) ticks :
  forall (prev : DataFrame A) pending,
    append_only prev (map table_now ticks) ->
    let r := start_loop end_time true ticks (length prev) pending in
    prev ++ sent_rows (end_events r) =
      match length (shown_frames (end_events r)) with
      | O => prev
      | S i => table_at ticks i
      end /\
    end_last_index r = length (prev ++ sent_rows (end_events r)).
Proof.
  induction ticks as [|t rest IH]; intros prev pending Hlog; cbn zeta.
  - cbn. rewrite app_nil_r. split; reflexivity.
  - cbn [start_loop].
    destruct (cap_isOpened t); cbn [negb];
      [|cbn; rewrite app_nil_r; split; reflexivity].
    destruct (read_ret t); cbn [negb];
      [|cbn; rewrite app_nil_r; split; reflexivity].
    destruct (past_endtime end_time t);
      [cbn; rewrite app_nil_r; split; reflexivity|].
    cbn [map append_only] in Hlog. destruct Hlog as [[more Hmore] Hrest].
    rewrite Hmore.
    destruct (new_rows_of_extension prev more) as [Hnew Hidx].
    rewrite Hnew, Hidx.
    fold (@send_row A).
    destruct (pressed_q t).
    + cbn [leave end_events end_last_index].
      rewrite sent_rows_imshow, shown_frames_imshow, sent_rows_of_sends,
        shown_frames_of_sends.
      cbn [length]. unfold table_at. cbn [nth_error]. rewrite Hmore.
      split; reflexivity.
    + specialize (IH (table_now t) (Some (read_frame t)) Hrest).
      cbn zeta in IH. rewrite Hmore in IH.
      destruct IH as [IHrows IHidx].
      cbn [emit end_events end_last_index].
      set (r := start_loop end_time true rest (length (prev ++ more))
                  (Some (read_frame t))) in *.
      rewrite <- app_comm_cons, sent_rows_imshow, shown_frames_imshow,
        sent_rows_app, shown_frames_app, sent_rows_of_sends,
        shown_frames_of_sends.
      cbn [app length].
      rewrite app_assoc. split.
      * rewrite IHrows. unfold table_at.
        destruct (length (shown_frames (end_events r))); cbn [nth_error];
          [rewrite Hmore|]; reflexivity.
      * exact IHidx.
Qed.

Lemma start_loop_shown (end_time : option A) (observer : bool) ticks :
  forall last_index pending,
    let r := start_loop end_time observer ticks last_index pending in
    let m := length (shown_frames (end_events r)) in
    shown_frames (end_events r) = map display_frame (firstn m ticks) /\
    Forall (fun t => cap_isOpened t = true /\ read_ret t = true /\
                     past_endtime end_time t = false) (firstn m ticks) /\
    (observer = false -> sent_rows (end_events r) = []).
Proof.
  induction ticks as [|t rest IH]; intros last_index pending; cbn zeta.
  - cbn. repeat split; constructor.
  - cbn [start_loop].
    destruct (cap_isOpened t) eqn:Hopen; cbn [negb];
      [|cbn; repeat split; constructor].
    destruct (read_ret t) eqn:Hret; cbn [negb];
      [|cbn; repeat split; constructor].
    destruct (past_endtime end_time t) eqn:Hend;
      [cbn; repeat split; constructor|].
    fold (@send_row A).
    set (new_rows := if has_new_rows (table_now t) last_index
                     then skipn last_index (table_now t) else []).
    set (sent := if observer then map send_row new_rows else []).
    assert (Hshown : shown_frames sent = [])
      by (unfold sent; destruct observer;
          [apply shown_frames_of_sends | reflexivity]).
    assert (Hsent : observer = false -> sent_rows sent = [])
      by (intros ->; reflexivity).
    destruct (pressed_q t).
    + cbn [leave end_events].
      rewrite shown_frames_imshow, sent_rows_imshow, Hshown. cbn.
      repeat split; auto.
    + cbn [emit end_events].
      rewrite <- app_comm_cons, shown_frames_imshow, sent_rows_imshow,
        shown_frames_app, sent_rows_app, Hshown.
      cbn [app length firstn map].
      match goal with
      | |- context [start_loop end_time observer rest ?li ?p] =>
          destruct (IH li p) as [IHshown [IHok IHsent]]
      end.
      cbn zeta in IHshown, IHok, IHsent.
      split; [f_equal; exact IHshown|].
      split; [constructor; [repeat split; assumption | exact IHok]|].
      intro Hobs. rewrite (Hsent Hobs), (IHsent Hobs). reflexivity.
Qed.

(** X12.  [start] forwards every row exactly once.  When the tables read
    by the loop come from an append-only log, the rows sent to the
    observer are, in order and without repetition or gap, the rows of the
    table read in the last iteration that showed a frame (none when no
    frame was shown), and [last_index] ends as their number. *)
Theorem start_forwards_each_row_once (end_time : option A) ticks
    (pending : option Frame) :
  append_only [] (map table_now ticks) ->
  let r := start_loop end_time true ticks 0 pending in
  sent_rows (end_events r) =
    match length (shown_frames (end_events r)) with
    | O => []
    | S i => table_at ticks i
    end /\
  end_last_index r = length (sent_rows (end_events r)).
Proof.
  intro Hlog.
  exact (start_loop_forwards end_time ticks [] pending Hlog).
Qed.

Lemma emit_emit evs1 evs2 (r : LoopEnd A) :
  emit evs1 (emit evs2 r) = emit (evs1 ++ evs2) r.
Proof. unfold emit. cbn. rewrite app_assoc. reflexivity. Qed.

Lemma emit_nil (r : LoopEnd A) : emit [] r = r.
Proof. destruct r. reflexivity. Qed.

Lemma start_loop_runs_through (end_time : option A) (observer : bool)
    (before : list (Tick A)) :
  forallb (runs_through end_time) before = true ->
  forall after last_index pending,
  exists last_index' evs,
    shown_frames evs = map display_frame before /\
    start_loop end_time observer (before ++ after) last_index pending =
      emit evs (start_loop end_time observer after last_index'
                  (last (map (fun t => Some (read_frame t)) before)
                        pending)).
Proof.
  induction before as [|t before IH]; intros Hrun after last_index pending.
  - exists last_index, []. split; [reflexivity|].
    cbn [app map last]. rewrite emit_nil. reflexivity.
  - cbn [forallb] in Hrun. apply andb_true_iff in Hrun as [Ht Hrest].
    unfold runs_through in Ht.
    apply andb_true_iff in Ht as [Ht Hq].
    apply andb_true_iff in Ht as [Ht Hend].
    apply andb_true_iff in Ht as [Hopen Hret].
    apply negb_true_iff in Hq, Hend.
    cbn [app start_loop]. rewrite Hopen, Hret, Hend, Hq. cbn [negb].
    fold (@send_row A).
    match goal with
    | |- context [start_loop end_time observer (before ++ after) ?li ?p] =>
        destruct (IH Hrest after li p) as [li' [evs [Hshown Hloop]]];
        rewrite Hloop
    end.
    eexists li', (_ ++ evs). split; cycle 1.
    + rewrite emit_emit. cbn [map]. rewrite last_cons. reflexivity.
    + rewrite <- app_comm_cons, shown_frames_imshow, shown_frames_app,
        Hshown.
      cbn [map]. f_equal.
      destruct observer; [rewrite shown_frames_of_sends|]; reflexivity.
Qed.

(** X13.  The end of the window stops [start] before the frame is shown,
    not before it is handed over.  Every frame [start] shows was read
    successfully from an open source at a position not past the end time;
    they are, in order, the frames of the first iterations (the processed
    frame when the worker has stored one, else the raw one).  The first
    frame read past the end time ends the loop and is not shown, yet the
    pending slot already holds it. *)
Theorem start_stops_at_end_of_window (end_time : option A)
    (observer : bool) :
  (forall ticks last_index pending,
     let r := start_loop end_time observer ticks last_index pending in
     let m := length (shown_frames (end_events r)) in
     shown_frames (end_events r) = map display_frame (firstn m ticks) /\
     Forall (fun t => cap_isOpened t = true /\ read_ret t = true /\
                      past_endtime end_time t = false) (firstn m ticks)) /\
  (forall before t after last_index pending,
     forallb (runs_through end_time) before = true ->
     cap_isOpened t = true -> read_ret t = true ->
     past_endtime end_time t = true ->
     let r := start_loop end_time observer (before ++ t :: after)
                last_index pending in
     end_exit r = LoopBroke /\
     shown_frames (end_events r) = map display_frame before /\
     end_pending r = Some (read_frame t)).
Proof.
  split.
  - intros ticks last_index pending.
    destruct (start_loop_shown end_time observer ticks last_index pending)
      as [Hshown [Hok _]].
    split; assumption.
  - intros before t after last_index pending Hrun Hopen Hret Hpast.
    destruct (start_loop_runs_through end_time observer before Hrun
                (t :: after) last_index pending)
      as [li' [evs [Hshown Hloop]]].
    cbn zeta. rewrite Hloop. cbn [start_loop].
    rewrite Hopen, Hret, Hpast. cbn [negb emit leave end_exit end_events
                                     end_pending].
    rewrite app_nil_r. repeat split. exact Hshown.
Qed.

Lemma start_loop_exit (end_time : option A) (observer : bool) ticks :
  forall last_index pending,
    let r := start_loop end_time observer ticks last_index pending in
    (end_exit r = LoopBroke \/ end_exit r = LoopUnfinished) /\
    ((exists t, In t ticks /\
                (cap_isOpened t = false \/ read_ret t = false)) ->
     end_exit r = LoopBroke).
Proof.
  induction ticks as [|t rest IH]; intros last_index pending; cbn zeta.
  - split; [right; reflexivity|]. intros [t [[] _]].
  - cbn [start_loop].
    destruct (cap_isOpened t) eqn:Hopen; cbn [negb];
      [|split; [left|intros _]; reflexivity].
    destruct (read_ret t) eqn:Hret; cbn [negb];
      [|split; [left|intros _]; reflexivity].
    destruct (past_endtime end_time t);
      [split; [left|intros _]; reflexivity|].
    destruct (pressed_q t); [split; [left|intros _]; reflexivity|].
    cbn [emit end_exit].
    match goal with
    | |- context [start_loop end_time observer rest ?li ?p] =>
        destruct (IH li p) as [IHkind IHends]
    end.
    split; [exact IHkind|].
    intros [t' [[<- | Hin] Hbad]].
    + destruct Hbad; congruence.
    + apply IHends. exists t'. split; assumption.
Qed.

(** X14.  The life cycle of a session.  When the source ends (some
    iteration finds it closed or fails to read), [start] on a fresh object
    returns, and it has then run [stop]: the stop flag is set, the worker
    joined, the source and the windows released.  On that object [stop] is
    a no-op, and every further [start], [startbackup] or [startbackup2]
    raises [RuntimeError] at once, showing nothing.  [stop] on an object
    that was never started raises [RuntimeError] after setting the flag
    and before releasing the source. *)
Theorem session_life_cycle (rt : Runtime A) (observer : bool)
    (fps_arg : option (PyNumber A)) ticks :
  processing_thread rt = ThreadInitial ->
  (exists t, In t ticks /\ (cap_isOpened t = false \/ read_ret t = false)) ->
  (exists rt' evs,
     start rt observer fps_arg ticks = Returned rt' evs /\
     stop_processing (session rt') = true /\
     processing_thread rt' = ThreadStopped /\
     cap_released rt' = true /\ windows_destroyed rt' = true /\
     stop rt' evs = Returned rt' evs /\
     (forall o f more, start rt' o f more = Raised RuntimeError rt' []) /\
     (forall more, startbackup rt' more = Raised RuntimeError rt' []) /\
     (forall sf o d f more,
        startbackup2 rt' sf o d f more = Raised RuntimeError rt' [])) /\
  (exists rt1,
     stop rt [] = Raised RuntimeError rt1 [] /\
     stop_processing (session rt1) = true /\
     cap_released rt1 = cap_released rt /\
     processing_thread rt1 = ThreadInitial).
Proof.
  intros Hfresh Hends. split.
  - unfold start, finish. rewrite Hfresh.
    destruct (start_loop_exit (endtime (session rt)) observer ticks 0
                (frame_to_process rt)) as [_ Hbroke].
    cbn zeta in Hbroke. rewrite (Hbroke Hends).
    unfold stop. cbn [after_loop processing_thread].
    eexists _, _. split; [reflexivity|].
    cbn. repeat split.
  - unfold stop. rewrite Hfresh. eexists. split; [reflexivity|].
    cbn. repeat split.
Qed.

(** X15.  [startbackup] is [start] without an observer: on the same object
    and against the same outside world the two calls end the same way,
    with the same object and the same frames shown in the same order. *)
Theorem startbackup_is_start_without_observer (rt : Runtime A)
    (fps_arg : option (PyNumber A)) ticks :
  startbackup rt ticks = start rt false fps_arg ticks.
Proof.
  unfold startbackup, start.
  destruct (processing_thread rt); try reflexivity.
  assert (Hloops : forall end_time ticks last_index pending,
            let r1 := startbackup_loop end_time ticks pending in
            let r2 := start_loop end_time false ticks last_index pending in
            end_events r1 = end_events r2 /\
            end_pending r1 = end_pending r2 /\
            end_exit r1 = end_exit r2).
  { clear. intros end_time ticks.
    induction ticks as [|t rest IH]; intros last_index pending; cbn zeta.
    - repeat split.
    - cbn [startbackup_loop start_loop].
      destruct (cap_isOpened t); cbn [negb]; [|repeat split].
      destruct (read_ret t); cbn [negb]; [|repeat split].
      destruct (past_endtime end_time t); [repeat split|].
      destruct (pressed_q t); [repeat split|].
      cbn [emit end_events end_pending end_exit].
      match goal with
      | |- context [start_loop end_time false rest ?li ?p] =>
          destruct (IH li p) as [IHev [IHp IHx]]
      end.
      cbn zeta in IHev, IHp, IHx. rewrite IHev, IHp, IHx.
      repeat split. }
  destruct (Hloops (endtime (session rt)) ticks 0%nat (frame_to_process rt))
    as [Hev [Hp Hx]].
  cbn zeta in Hev, Hp, Hx.
  unfold finish, after_loop. rewrite Hev, Hp, Hx. reflexivity.
Qed.

Lemma slice_partition {T : Type} (l : list T) (k : Z) :
  slice_to l k ++ slice_from l k = l.
Proof. unfold slice_to, slice_from. destruct (k <? 0); apply firstn_skipn. Qed.

Lemma take_block_conserves observer f used_fps (buffer1 : DataFrame A) :
  forall evs buffer2 raised,
    take_block observer f used_fps buffer1 = (evs, buffer2, raised) ->
    concat (blocks_of evs) ++ buffer2 = buffer1 /\
    shown_frames evs = [] /\
    (forall x, used_fps = PyFloat x -> evs = [] /\ raised = Some TypeError) /\
    (forall k, used_fps = PyInt k ->
       blocks_of evs = [slice_to buffer1 k]).
Proof.
  intros evs buffer2 raised. unfold take_block.
  destruct used_fps as [k|x].
  - destruct (f (slice_to buffer1 k)) as [movement|e].
    + destruct (getitem (slice_to buffer1 k) 0) as [r0|e0];
        [destruct (getitem (slice_to buffer1 k) (-1)) as [r1|e1]|];
        intro E; injection E as <- <- <-;
        (split; [cbn; try (destruct observer; cbn); rewrite app_nil_r;
                 apply slice_partition|]);
        (split; [destruct observer; reflexivity|]);
        (split; [intros x Hx; discriminate Hx|]);
        intros k' Hk; injection Hk as <-; destruct observer; reflexivity.
    + intro E; injection E as <- <- <-.
      split; [cbn; rewrite app_nil_r; apply slice_partition|].
      split; [reflexivity|].
      split; [intros x Hx; discriminate Hx|].
      intros k' Hk; injection Hk as <-; reflexivity.
  - intro E; injection E as <- <- <-.
    split; [reflexivity|]. split; [reflexivity|].
    split; [intros x' _; split; reflexivity|].
    intros k Hk; discriminate Hk.
Qed.

Lemma block_step_conserves observer distance_function used_fps
    (buffer1 : DataFrame A) :
  forall evs buffer2 raised,
    block_step observer distance_function used_fps buffer1
      = (evs, buffer2, raised) ->
    concat (blocks_of evs) ++ buffer2 = buffer1 /\ shown_frames evs = [].
Proof.
  intros evs buffer2 raised. unfold block_step.
  destruct distance_function as [f|];
    [destruct (buffer_full buffer1 used_fps)|];
    try (intro E; injection E as <- <- <-; split; reflexivity).
  intro E.
  destruct (take_block_conserves observer f used_fps buffer1 _ _ _ E)
    as [Hrows [Hshown _]].
  split; assumption.
Qed.

Lemma startbackup2_loop_step end_time observer distance_function used_fps
    t rest last_index (frame_buffer : DataFrame A) pending :
  cap_isOpened t = true -> read_ret t = true ->
  past_endtime end_time t = false ->
  startbackup2_loop end_time observer distance_function used_fps
    (t :: rest) last_index frame_buffer pending =
  let fresh := has_new_rows (table_now t) last_index in
  let buffer1 := if fresh
                 then frame_buffer ++ skipn last_index (table_now t)
                 else frame_buffer in
  let last_index' := if fresh then length (table_now t) else last_index in
  let '(evs, buffer2, raised) :=
    block_step observer distance_function used_fps buffer1 in
  match raised with
  | Some e =>
      leave (LoopRaised e) ([Imshow (display_frame t)] ++ evs) last_index'
            buffer2 (Some (read_frame t))
  | None =>
      if pressed_q t
      then leave LoopBroke ([Imshow (display_frame t)] ++ evs) last_index'
                 buffer2 (Some (read_frame t))
      else emit ([Imshow (display_frame t)] ++ evs)
             (startbackup2_loop end_time observer distance_function
                used_fps rest last_index' buffer2 (Some (read_frame t)))
  end.
Proof.
  intros Hopen Hret Hend. cbn [startbackup2_loop].
  rewrite Hopen, Hret, Hend. reflexivity.
Qed.

Lemma startbackup2_loop_conserves end_time observer distance_function
    used_fps ticks :
  forall (prev frame_buffer : DataFrame A) pending,
    append_only prev (map table_now ticks) ->
    let r := startbackup2_loop end_time observer distance_function used_fps
               ticks (length prev) frame_buffer pending in
    exists more,
      match length (shown_frames (end_events r)) with
      | O => prev
      | S i => table_at ticks i
      end = prev ++ more /\
      concat (blocks_of (end_events r)) ++ end_frame_buffer r
        = frame_buffer ++ more.
Proof.
  induction ticks as [|t rest IH]; intros prev frame_buffer pending Hlog;
    cbn zeta.
  - exists []. cbn. rewrite !app_nil_r. split; reflexivity.
  - destruct (cap_isOpened t) eqn:Hopen;
      [|exists []; cbn [startbackup2_loop]; rewrite Hopen; cbn;
        rewrite !app_nil_r; split; reflexivity].
    destruct (read_ret t) eqn:Hret;
      [|exists []; cbn [startbackup2_loop]; rewrite Hopen, Hret; cbn;
        rewrite !app_nil_r; split; reflexivity].
    destruct (past_endtime end_time t) eqn:Hend;
      [exists []; cbn [startbackup2_loop]; rewrite Hopen, Hret, Hend; cbn;
       rewrite !app_nil_r; split; reflexivity|].
    rewrite (startbackup2_loop_step _ _ _ _ _ _ _ _ _ Hopen Hret Hend).
    cbn zeta.
    cbn [map append_only] in Hlog. destruct Hlog as [[more Hmore] Hrest].
    rewrite Hmore.
    destruct (new_rows_of_extension prev more) as [Hnew Hidx].
    assert (Hbuf : (if has_new_rows (prev ++ more) (length prev)
                    then frame_buffer ++ skipn (length prev) (prev ++ more)
                    else frame_buffer) = frame_buffer ++ more).
    { destruct (has_new_rows (prev ++ more) (length prev)).
      - rewrite Hnew. reflexivity.
      - rewrite <- Hnew, app_nil_r. reflexivity. }
    rewrite Hbuf, Hidx.
    destruct (block_step observer distance_function used_fps
                (frame_buffer ++ more)) as [[evs buffer2] raised] eqn:Estep.
    destruct (block_step_conserves _ _ _ _ _ _ _ Estep) as [Hrows Hshown].
    assert (Hhere : forall how li p,
              let r := leave how ([Imshow (display_frame t)] ++ evs) li
                         buffer2 p in
              exists more0,
                match length (shown_frames (end_events r)) with
                | O => prev
                | S i => table_at (t :: rest) i
                end = prev ++ more0 /\
                concat (blocks_of (end_events r)) ++ end_frame_buffer r
                  = frame_buffer ++ more0).
    { intros how li p. exists more. cbn [leave end_events end_frame_buffer].
      cbn [app]. rewrite shown_frames_imshow, blocks_of_imshow, Hshown.
      cbn [length]. unfold table_at. cbn [nth_error].
      split; [exact Hmore | exact Hrows]. }
    destruct raised as [e|]; [apply Hhere|].
    destruct (pressed_q t); [apply Hhere|].
    specialize (IH (table_now t) buffer2 (Some (read_frame t)) Hrest).
    cbn zeta in IH. rewrite Hmore in IH. destruct IH as [more' [Htab Hcons]].
    exists (more ++ more').
    cbn [emit end_events end_frame_buffer]. cbn [app].
    rewrite shown_frames_imshow, blocks_of_imshow, shown_frames_app,
      blocks_of_app, Hshown.
    cbn [app length]. split.
    + unfold table_at in *.
      destruct (length (shown_frames (end_events _))); cbn [nth_error].
      * rewrite Hmore, app_assoc. exact Htab.
      * rewrite app_assoc. exact Htab.
    + rewrite concat_app, <- app_assoc, Hcons, app_assoc, Hrows,
        <- app_assoc. reflexivity.
Qed.

Lemma messages_of_app evs1 evs2 :
  messages_of (evs1 ++ evs2) = messages_of evs1 ++ messages_of evs2.
Proof. apply flat_map_app. Qed.

Lemma take_block_int observer f (k : Z) (frame_buffer : DataFrame A) :
  1 <= k -> k <= Z.of_nat (length frame_buffer) ->
  (forall block, returns (f block)) ->
  exists msg,
    take_block observer f (PyInt k) frame_buffer =
      (CallDistance (slice_to frame_buffer k)
         :: (if observer then [SendMessage msg] else []),
       slice_from frame_buffer k, None) /\
    block_message f (slice_to frame_buffer k) = Some msg /\
    length (slice_to frame_buffer k) = Z.to_nat k.
Proof.
  intros Hk Hfull Htotal.
  assert (Hlen : length (slice_to frame_buffer k) = Z.to_nat k).
  { unfold slice_to.
    replace (k <? 0) with false by (symmetry; apply Z.ltb_ge; lia).
    rewrite length_firstn. lia. }
  destruct (slice_to frame_buffer k) as [|r0 block] eqn:Eblock;
    [simpl in Hlen; lia|].
  destruct (Htotal (r0 :: block)) as [movement Hf].
  unfold take_block, block_message.
  rewrite Eblock, Hf, getitem_first, getitem_last.
  eexists. split; [reflexivity|]. split; [reflexivity | exact Hlen].
Qed.

Lemma startbackup2_loop_blocks end_time observer f (k : Z) ticks :
  1 <= k -> (forall block, returns (f block)) ->
  forall last_index (frame_buffer : DataFrame A) pending,
    let r := startbackup2_loop end_time observer (Some f) (PyInt k) ticks
               last_index frame_buffer pending in
    Forall (fun block => length block = Z.to_nat k)
           (blocks_of (end_events r)) /\
    (length (blocks_of (end_events r))
       <= length (shown_frames (end_events r)))%nat /\
    map Some (messages_of (end_events r)) =
      (if observer then map (block_message f) (blocks_of (end_events r))
       else []) /\
    (end_exit r = LoopBroke \/ end_exit r = LoopUnfinished).
Proof.
  intros Hk Htotal.
  induction ticks as [|t rest IH]; intros last_index frame_buffer pending;
    cbn zeta.
  - cbn. split; [constructor|]. split; [lia|].
    split; [destruct observer; reflexivity | right; reflexivity].
  - assert (Hidle : forall li buf p,
              let r := leave LoopBroke [] li buf p in
              Forall (fun block => length block = Z.to_nat k)
                     (blocks_of (end_events r)) /\
              (length (blocks_of (end_events r))
                 <= length (shown_frames (end_events r)))%nat /\
              map Some (messages_of (end_events r)) =
                (if observer
                 then map (block_message f) (blocks_of (end_events r))
                 else []) /\
              (end_exit r = LoopBroke \/ end_exit r = LoopUnfinished)).
    { intros li buf p. cbn. split; [constructor|]. split; [lia|].
      split; [destruct observer; reflexivity | left; reflexivity]. }
    destruct (cap_isOpened t) eqn:Hopen;
      [|cbn [startbackup2_loop]; rewrite Hopen; apply Hidle].
    destruct (read_ret t) eqn:Hret;
      [|cbn [startbackup2_loop]; rewrite Hopen, Hret; apply Hidle].
    destruct (past_endtime end_time t) eqn:Hend;
      [cbn [startbackup2_loop]; rewrite Hopen, Hret, Hend; apply Hidle|].
    rewrite (startbackup2_loop_step _ _ _ _ _ _ _ _ _ Hopen Hret Hend).
    cbn zeta.
    set (buffer1 := if has_new_rows (table_now t) last_index
                    then frame_buffer ++ skipn last_index (table_now t)
                    else frame_buffer).
    set (li' := if has_new_rows (table_now t) last_index
                then length (table_now t) else last_index).
    assert (Hstep : exists evs buffer2,
              block_step observer (Some f) (PyInt k) buffer1
                = (evs, buffer2, None) /\
              shown_frames evs = [] /\
              Forall (fun block => length block = Z.to_nat k)
                     (blocks_of evs) /\
              (length (blocks_of evs) <= 1)%nat /\
              map Some (messages_of evs) =
                (if observer then map (block_message f) (blocks_of evs)
                 else [])).
    { unfold block_step, buffer_full.
      destruct (k <=? Z.of_nat (length buffer1)) eqn:Hfull.
      - apply Z.leb_le in Hfull.
        destruct (take_block_int observer f k buffer1 Hk Hfull Htotal)
          as [msg [Htake [Hmsg Hlen]]].
        rewrite Htake. eexists _, _. split; [reflexivity|].
        split; [destruct observer; reflexivity|].
        split; [destruct observer; cbn;
                (constructor; [exact Hlen | constructor])|].
        split; [destruct observer; cbn; lia|].
        destruct observer; cbn; rewrite ?Hmsg; reflexivity.
      - exists [], buffer1. split; [reflexivity|].
        split; [reflexivity|]. split; [constructor|].
        split; [cbn; lia|]. destruct observer; reflexivity. }
    destruct Hstep as [evs [buffer2 [Estep [Hshown [Hsizes [Hone Hmsgs]]]]]].
    rewrite Estep.
    destruct (pressed_q t).
    + cbn [leave end_events end_exit]. cbn [app].
      rewrite shown_frames_imshow, blocks_of_imshow, Hshown.
      change (messages_of (Imshow (display_frame t) :: evs))
        with (messages_of evs).
      cbn [length]. split; [exact Hsizes|]. split; [lia|].
      split; [exact Hmsgs | left; reflexivity].
    + destruct (IH li' buffer2 (Some (read_frame t)))
        as [IHsizes [IHcount [IHmsgs IHexit]]].
      cbn zeta in IHsizes, IHcount, IHmsgs, IHexit.
      cbn [emit end_events end_exit]. cbn [app].
      rewrite shown_frames_imshow, blocks_of_imshow, shown_frames_app,
        blocks_of_app, Hshown.
      change (messages_of (Imshow (display_frame t) :: evs ++ ?l))
        with (messages_of (evs ++ l)).
      rewrite messages_of_app, map_app, Hmsgs, IHmsgs.
      cbn [app length]. rewrite length_app.
      split; [apply Forall_app; split; assumption|].
      split; [lia|]. split; [|exact IHexit].
      destruct observer; [rewrite map_app|]; reflexivity.
Qed.

(** X16.  [startbackup2] loses no row and repeats none.  When the tables
    read by the loop come from an append-only log, the blocks handed to
    the distance function, one after the other, followed by the rows
    still in the buffer, are exactly the rows of the table read in the
    last iteration that showed a frame; this holds however the loop ends
    and whatever the frame count is.  For an integer frame count
    [k >= 1] and a distance function that returns, every block has exactly
    [k] rows, at most one block is taken per iteration, the loop never
    raises, and with an observer each block gives one message, carrying
    its movement and the timestamps of its first and last rows. *)
Theorem startbackup2_partitions_the_rows (end_time : option A)
    (observer : bool) ticks (pending : option Frame) :
  append_only [] (map table_now ticks) ->
  (forall distance_function used_fps,
     let r := startbackup2_loop end_time observer distance_function
                used_fps ticks 0 [] pending in
     concat (blocks_of (end_events r)) ++ end_frame_buffer r =
       match length (shown_frames (end_events r)) with
       | O => []
       | S i => table_at ticks i
       end) /\
  (forall f k,
     1 <= k -> (forall block, returns (f block)) ->
     let r := startbackup2_loop end_time observer (Some f) (PyInt k)
                ticks 0 [] pending in
     Forall (fun block => length block = Z.to_nat k)
            (blocks_of (end_events r)) /\
     (length (blocks_of (end_events r))
        <= length (shown_frames (end_events r)))%nat /\
     map Some (messages_of (end_events r)) =
       (if observer then map (block_message f) (blocks_of (end_events r))
        else []) /\
     (end_exit r = LoopBroke \/ end_exit r = LoopUnfinished)).
Proof.
  intro Hlog. split.
  - intros distance_function used_fps.
    destruct (startbackup2_loop_conserves end_time observer
                distance_function used_fps ticks [] [] pending Hlog)
      as [more [Htab Hrows]].
    cbn zeta in *. cbn [length app] in Htab, Hrows.
    rewrite Hrows. symmetry. exact Htab.
  - intros f k Hk Htotal.
    apply (startbackup2_loop_blocks end_time observer f k ticks Hk Htotal).
Qed.



End LoopFacts.

(** ** The worker and the frame slots *)

Section WorkerFacts.
Context {A : Type} `{PyNum A}.
Variable backend : Backend A.

Implicit Types (s : Shared A) (acts : list (Action A)).

Lemma run_app acts1 acts2 s :
  run backend (acts1 ++ acts2) s = run backend acts2 (run backend acts1 s).
Proof. apply fold_left_app. Qed.

Lemma published_app acts1 acts2 :
  published (acts1 ++ acts2) = published acts1 ++ published acts2.
Proof. apply flat_map_app. Qed.

Lemma worker_step_keeps now s :
  pending_slot (worker_step backend now s) = pending_slot s /\
  stop_flag (worker_step backend now s) = stop_flag s /\
  exists more, log (worker_step backend now s) = log s ++ more.
Proof.
  unfold worker_step, process_frame.
  destruct (worker_pc s) as [| |[frame|]|drawn|]; cbn;
    try (repeat split; exists []; rewrite app_nil_r; reflexivity).
  repeat split. destruct (detect backend frame) as [cs|].
  - eexists. reflexivity.
  - exists []. rewrite app_nil_r. reflexivity.
Qed.

Lemma act_extends_log s (a : Action A) :
  exists more, log (act backend s a) = log s ++ more.
Proof.
  destruct a as [frame| |now]; cbn [act log];
    try (exists []; rewrite app_nil_r; reflexivity).
  apply worker_step_keeps.
Qed.

Lemma run_extends_log acts :
  forall s, exists more, log (run backend acts s) = log s ++ more.
Proof.
  induction acts as [|a acts IH]; intro s.
  - exists []. rewrite app_nil_r. reflexivity.
  - cbn [run fold_left]. destruct (IH (act backend s a)) as [more2 H2].
    destruct (act_extends_log s a) as [more1 H1].
    exists (more1 ++ more2). unfold run in H2.
    rewrite H2, H1, app_assoc. reflexivity.
Qed.

(** X18.  The pending slot holds the frame published last and is never
    emptied: after any steps of the two threads it holds the last frame
    the capture loop stored (an older frame that was not taken in time is
    overwritten), and no step of the worker changes it. *)
Theorem pending_slot_holds_latest acts s :
  pending_slot (run backend acts s) =
    last (map Some (published acts)) (pending_slot s).
Proof.
  revert s. induction acts as [|a acts IH]; intro s; [reflexivity|].
  cbn [run fold_left]. fold (run backend acts (act backend s a)).
  rewrite IH. destruct a as [frame| |now].
  - cbn [published flat_map app map act pending_slot].
    rewrite last_cons. reflexivity.
  - reflexivity.
  - cbn [published flat_map app act].
    rewrite (proj1 (worker_step_keeps now s)). reflexivity.
Qed.

Lemma worker_pass s frame (p : A * A * A * A) :
  worker_pc s = AtWhile -> stop_flag s = false ->
  pending_slot s = Some frame ->
  let s' := run backend (pass_steps p) s in
  worker_pc s' = AtWhile /\ stop_flag s' = false /\
  pending_slot s' = Some frame /\
  processed s' = processed s ++ [frame] /\
  processed_slot s' = Some (annotate backend frame) /\
  length (log s') = (length (log s) + if detected backend frame then 1 else 0)%nat.
Proof.
  intros Hpc Hstop Hpending. destruct p as [[[n1 n2] n3] n4].
  destruct s as [pend slot flag lg pc done].
  cbn in Hpc, Hstop, Hpending. subst pc flag pend.
  unfold pass_steps, run, detected. cbn [fold_left act].
  unfold worker_step, process_frame. cbn.
  destruct (detect backend frame) as [cs|]; cbn;
    rewrite ?length_app; cbn; repeat split; lia.
Qed.

(** X19.  The worker processes a frame again on every pass until a new
    one is published.  From a state where the pending slot holds a frame
    and no stop was asked, [n] passes of the worker with no publication
    in between hand that same frame to [process_frame] [n] times; when
    the backend finds a pose in it, the table gains [n] rows for the one
    frame. *)
Theorem worker_reprocesses_pending_frame s frame
    (passes : list (A * A * A * A)) :
  worker_pc s = AtWhile -> stop_flag s = false ->
  pending_slot s = Some frame ->
  let s' := run backend (flat_map pass_steps passes) s in
  processed s' = processed s ++ repeat frame (length passes) /\
  length (log s') =
    (length (log s) + if detected backend frame then length passes else 0)%nat /\
  pending_slot s' = Some frame.
Proof.
  revert s. induction passes as [|p passes IH];
    intros s Hpc Hstop Hpending; cbn zeta.
  - cbn. rewrite app_nil_r. repeat split;
      [destruct (detected backend frame); lia | exact Hpending].
  - cbn [flat_map]. rewrite run_app.
    destruct (worker_pass s frame p Hpc Hstop Hpending)
      as [Hpc' [Hstop' [Hpending' [Hproc [_ Hlog]]]]].
    cbn zeta in Hpc', Hstop', Hpending', Hproc, Hlog.
    destruct (IH _ Hpc' Hstop' Hpending') as [IHproc [IHlog IHpending]].
    cbn zeta in IHproc, IHlog, IHpending.
    rewrite IHproc, IHlog, Hproc, Hlog. cbn [length repeat].
    rewrite <- app_assoc. repeat split;
      [destruct (detected backend frame); lia | exact IHpending].
Qed.

Lemma only_published_more frames more s :
  only_published backend frames s -> only_published backend (frames ++ more) s.
Proof.
  intros [Hp [Hb [Hs [Hl Hd]]]]. unfold only_published.
  split; [intros f Hf; apply in_or_app; left; auto|].
  split; [intros f Hf; apply in_or_app; left; auto|].
  split; [intros g Hg; destruct (Hs g Hg) as [f [Hin Heq]];
          exists f; split; [apply in_or_app; left|]; assumption|].
  split; [intros g Hg; destruct (Hl g Hg) as [f [Hin Heq]];
          exists f; split; [apply in_or_app; left|]; assumption|].
  eapply Forall_impl; [|exact Hd].
  intros f Hf. apply in_or_app. left. exact Hf.
Qed.

Lemma act_only_published frames s (a : Action A) :
  only_published backend frames s ->
  only_published backend (frames ++ published [a]) (act backend s a).
Proof.
  intro Hinv. destruct a as [frame| |now].
  - apply (only_published_more frames [frame]) in Hinv.
    destruct Hinv as [Hp [Hb [Hs [Hl Hd]]]].
    cbn [published flat_map app]. unfold only_published.
    cbn [act pending_slot worker_pc processed_slot processed].
    split; [|repeat split; assumption].
    intros f Hf. injection Hf as <-. apply in_or_app. right. left.
    reflexivity.
  - cbn [published flat_map app]. rewrite app_nil_r.
    destruct Hinv as [Hp [Hb [Hs [Hl Hd]]]].
    unfold only_published. cbn. repeat split; assumption.
  - cbn [published flat_map app act]. rewrite app_nil_r.
    destruct Hinv as [Hp [Hb [Hs [Hl Hd]]]].
    unfold only_published, worker_step, process_frame.
    destruct (worker_pc s) as [| |[frame|]|drawn|] eqn:Hpc; cbn.
    + repeat split; try assumption; intros x Hx;
        destruct (stop_flag s); discriminate Hx.
    + repeat split; try assumption; try (intros x Hx; discriminate Hx).
      intros f Hf. injection Hf as Hf. apply Hp. exact Hf.
    + repeat split; try assumption; try (intros x Hx; discriminate Hx).
      * intros g Hg. injection Hg as <-. exists frame.
        split; [apply Hb; reflexivity | reflexivity].
      * apply Forall_app. split; [exact Hd|].
        constructor; [apply Hb; reflexivity | constructor].
    + repeat split; try assumption; intros x Hx; discriminate Hx.
    + repeat split; try assumption; try (intros x Hx; discriminate Hx).
      intros g Hg. injection Hg as <-. apply Hs. reflexivity.
    + rewrite Hpc. repeat split; assumption.
Qed.

Lemma run_only_published acts :
  forall frames s,
    only_published backend frames s ->
    only_published backend (frames ++ published acts) (run backend acts s).
Proof.
  induction acts as [|a acts IH]; intros frames s Hinv.
  - cbn. rewrite app_nil_r. exact Hinv.
  - cbn [run fold_left].
    change (a :: acts) with ([a] ++ acts).
    rewrite published_app, app_assoc.
    apply IH. apply act_only_published. exact Hinv.
Qed.

(** X20.  The worker never invents a frame.  Starting from the empty
    slots, after any steps of the two threads every frame that was handed
    to [process_frame] is one the capture loop published, and the frame in
    the processed slot, if any, is the overlay drawn on a published
    frame. *)
Theorem worker_handles_only_published_frames acts :
  let s := run backend acts initial_shared in
  Forall (fun f => In f (published acts)) (processed s) /\
  (forall g, processed_slot s = Some g ->
     exists f, In f (published acts) /\ g = annotate backend f).
Proof.
  assert (Hinit : only_published backend [] initial_shared).
  { unfold only_published, initial_shared. cbn.
    repeat split; try (intros x Hx; discriminate Hx). constructor. }
  destruct (run_only_published acts [] initial_shared Hinit)
    as [_ [_ [_ [Hl Hd]]]].
  cbn [app] in Hl, Hd. cbn zeta. split; assumption.
Qed.

Lemma act_counts_rows s (a : Action A) :
  length (log s) = length (filter (detected backend) (processed s)) ->
  length (log (act backend s a))
    = length (filter (detected backend) (processed (act backend s a))).
Proof.
  intro Hinv. destruct a as [frame| |now]; cbn [act log processed];
    try exact Hinv.
  unfold worker_step, process_frame, detected in *.
  destruct (worker_pc s) as [| |[frame|]|drawn|]; cbn; try exact Hinv.
  rewrite filter_app, length_app. cbn [filter].
  destruct (detect backend frame) as [cs|]; cbn [length];
    rewrite ?length_app; cbn [length]; lia.
Qed.

(** X21.  The table is an append-only log with one row per detection.
    Tables read one after the other, after any stretches of steps of the
    two threads, each extend the one read before; and the table always
    has exactly as many rows as frames were processed in which the
    backend found a pose (a frame without a pose adds no row). *)
Theorem table_is_append_only (stretches : list (list (Action A))) s :
  append_only (log s) (snapshots backend stretches s) /\
  (forall acts,
     length (log (run backend acts initial_shared)) =
       length (filter (detected backend)
                 (processed (run backend acts initial_shared)))).
Proof.
  split.
  - revert s. induction stretches as [|acts rest IH]; intro s; [exact I|].
    cbn [snapshots append_only]. split; [|apply IH].
    destruct (run_extends_log acts s) as [more Hmore].
    exists more. exact Hmore.
  - intro acts.
    assert (Hgen : forall s0,
              length (log s0) = length (filter (detected backend) (processed s0)) ->
              length (log (run backend acts s0))
                = length (filter (detected backend) (processed (run backend acts s0)))).
    { induction acts as [|a acts IH]; intros s0 Hinv; [exact Hinv|].
      cbn [run fold_left]. apply IH. apply act_counts_rows. exact Hinv. }
    apply Hgen. reflexivity.
Qed.

Lemma worker_exited_stays (nows : list A) s :
  worker_pc s = WorkerExited ->
  worker_pc (run backend (map WorkerStep nows) s) = WorkerExited.
Proof.
  revert s. induction nows as [|now nows IH]; intros s Hpc; [exact Hpc|].
  cbn [map run fold_left act]. apply IH.
  unfold worker_step. rewrite Hpc. exact Hpc.
Qed.

(** X22.  Stopping is cooperative and takes at most one pass.  Once the
    stop flag is set, the worker has left its loop after four of its own
    steps at the latest, wherever it stood, and it stays out; so the
    [join] in [stop] returns as soon as the call of [process_frame]
    under way, if any, has returned. *)
Theorem worker_leaves_after_stop (nows : list A) s :
  stop_flag s = true -> (4 <= length nows)%nat ->
  worker_pc (run backend (map WorkerStep nows) s) = WorkerExited.
Proof.
  intros Hstop Hlen.
  destruct nows as [|n1 [|n2 [|n3 [|n4 nows]]]]; try (simpl in Hlen; lia).
  change (map WorkerStep (n1 :: n2 :: n3 :: n4 :: nows))
    with (map WorkerStep [n1; n2; n3; n4] ++ map WorkerStep nows).
  rewrite run_app. apply worker_exited_stays.
  unfold run. cbn [map fold_left act].
  unfold worker_step, process_frame.
  destruct (worker_pc s) as [| |[frame|]|drawn|] eqn:Hpc; cbn;
    rewrite ?Hstop, ?Hpc; cbn; rewrite ?Hstop; try reflexivity.
  destruct (pending_slot s); cbn; rewrite ?Hstop; reflexivity.
Qed.
End WorkerFacts.

(** ** The loops and the worker on concrete runs *)

Lemma example_ticks_append_only :
  append_only [] (map table_now example_ticks).
Proof.
  cbn [example_ticks map table_now append_only].
  split; [exists []; reflexivity|].
  split; [exists (table [(0, 0)]%float); reflexivity|].
  split; [exists (table [(1, 1); (2, 4)]%float); reflexivity|].
  split; [exists []; reflexivity | exact I].
Defined.

(** X12, on a run of four iterations whose table grows from no row to
    three: the observer gets the three rows, once each. *)
Lemma start_forwards_each_row_once_example :
  append_only [] (map table_now example_ticks) /\
  sent_rows (end_events (start_loop None true example_ticks 0 None))
    = table [(0, 0); (1, 1); (2, 4)]%float.
Proof.
  split; [exact example_ticks_append_only|].
  exact (proj1 (start_forwards_each_row_once None example_ticks None
                  example_ticks_append_only)).
Defined.

(** X14, on a fresh file session whose stream ends at the fourth read. *)
Lemma session_life_cycle_example :
  exists rt' evs,
    start (new_runtime (session_of VIDEO [])) true None example_ticks
      = Returned rt' evs /\
    stop_processing (session rt') = true /\
    processing_thread rt' = ThreadStopped /\
    cap_released rt' = true.
Proof.
  assert (Hends : exists t, In t example_ticks /\
                    (cap_isOpened t = false \/ read_ret t = false)).
  { eexists. split; [right; right; right; left; reflexivity|].
    right. reflexivity. }
  destruct (proj1 (session_life_cycle (new_runtime (session_of VIDEO []))
                     true None example_ticks eq_refl Hends))
    as [rt' [evs [Hrun [Hflag [Hthread [Hcap _]]]]]].
  exists rt', evs. repeat split; assumption.
Defined.

(** X16, on the same run with blocks of two rows: one block of two rows
    is evaluated and one row stays in the buffer. *)
Lemma startbackup2_partitions_the_rows_example :
  let r := startbackup2_loop None true
             (Some (fun block => Ok (of_int (Z.of_nat (length block)))))
             (PyInt 2) example_ticks 0 [] None in
  append_only [] (map table_now example_ticks) /\
  concat (blocks_of (end_events r)) ++ end_frame_buffer r
    = table [(0, 0); (1, 1); (2, 4)]%float /\
  blocks_of (end_events r) = [table [(0, 0); (1, 1)]%float] /\
  end_frame_buffer r = table [(2, 4)]%float.
Proof.
  cbn zeta. split; [exact example_ticks_append_only|].
  split; [|split; reflexivity].
  exact (proj1 (startbackup2_partitions_the_rows None true example_ticks
                  None example_ticks_append_only)
           (Some (fun block => Ok (of_int (Z.of_nat (length block)))))
           (PyInt 2)).
Defined.

(** X19, after frame 4 was published: three passes of the worker process
    it three times and add three rows. *)
Lemma worker_reprocesses_pending_frame_example :
  let s0 := run even_backend [Publish 4] initial_shared in
  let s3 := run even_backend
              (flat_map pass_steps
                 [(1, 2, 3, 4); (5, 6, 7, 8); (9, 10, 11, 12)]%float) s0 in
  processed s3 = [4; 4; 4] /\ length (log s3) = 3%nat.
Proof.
  cbn zeta.
  destruct (worker_reprocesses_pending_frame even_backend
              (run even_backend [Publish 4] initial_shared) 4
              [(1, 2, 3, 4); (5, 6, 7, 8); (9, 10, 11, 12)]%float
              eq_refl eq_refl eq_refl) as [Hproc [Hlog _]].
  split; [exact Hproc | exact Hlog].
Defined.

(** X22, for a stop asked while the worker holds frame 4. *)
Lemma worker_leaves_after_stop_example :
  let s := run even_backend
             [Publish 4; WorkerStep 0%float; WorkerStep 0%float; SetStop]
             initial_shared in
  stop_flag s = true /\
  worker_pc (run even_backend
               (map WorkerStep [1; 2; 3; 4]%float) s) = WorkerExited.
Proof.
  cbn zeta. split; [reflexivity|].
  apply (worker_leaves_after_stop even_backend [1; 2; 3; 4]%float);
    [reflexivity | simpl; lia].
Defined.

